(** * goSolarPanel: the row extractor, the aggregator and the persistence layer

    A shallow embedding of [getSolarPanelData.go].  The program scrapes the
    inverter status table, merges the readings into per-panel histories,
    derives a global summary and rewrites two JSON files.

    External collaborators (colly, regexp, strconv, strings, encoding/json,
    the file system) are not part of the repository; the parts of them the
    program relies on are modelled next to the call that uses them, each with
    a note saying which behaviour of the library is captured. *)

From Stdlib Require Import ZArith Ascii String List Lia PrimFloat Uint63.
From stdpp Require Import gmap strings list fin_maps pretty.

Local Open Scope string_scope.
Local Open Scope list_scope.
Local Open Scope Z_scope.

(** ** Machine integers: Go's [int64] *)

Module Int64.

Definition min : Z := - 2 ^ 63.
Definition max : Z := 2 ^ 63 - 1.

Definition inRange (z : Z) : Prop := min <= z <= max.

(** Two's-complement wrap-around of an unbounded integer. *)
Definition wrap (z : Z) : Z := (z + 2 ^ 63) mod 2 ^ 64 - 2 ^ 63.

(** [a + b] and [a * b] on [int64]. *)
Definition add (a b : Z) : Z := wrap (a + b).
Definition mul (a b : Z) : Z := wrap (a * b).

End Int64.

(** ** Character classes *)

Definition code (a : ascii) : N := N_of_ascii a.

Definition isDigit (a : ascii) : bool := ((48 <=? code a) && (code a <=? 57))%N.
Definition isMinus (a : ascii) : bool := (code a =? 45)%N.
Definition isComma (a : ascii) : bool := (code a =? 44)%N.
Definition isDot (a : ascii) : bool := (code a =? 46)%N.
Definition isBrace (a : ascii) : bool := ((code a =? 123) || (code a =? 125))%N.

(** ** The regular expression of [parseRealTime]

    [regexp.MustCompile(`[-]?\d[\d,]*[\.]?[\d{2}]*`)].  The pattern is a
    sequence of character classes, each with a quantifier; inside the last
    bracket the characters [{], [2] and [}] are literal members of the class,
    not a repetition count. *)

Inductive Quant := One | ZeroOrOne | ZeroOrMore.

Record Item := mkItem { cls : ascii -> bool; quant : Quant }.

Definition re : list Item :=
  [ mkItem isMinus ZeroOrOne                                (* [-]?      *)
  ; mkItem isDigit One                                      (* \d        *)
  ; mkItem (fun a => isDigit a || isComma a) ZeroOrMore     (* [\d,]*    *)
  ; mkItem isDot ZeroOrOne                                  (* [\.]?     *)
  ; mkItem (fun a => isDigit a || isBrace a) ZeroOrMore     (* [\d{2}]*  *)
  ].

Definition consMatch (a : ascii) (r : option (string * string)) : option (string * string) :=
  match r with
  | Some (m, rest) => Some (String a m, rest)
  | None => None
  end.

(** Leftmost-first matching at the start of [s], as a backtracking search
    finds it: every quantifier is greedy, it first tries to take a character
    and falls back to taking none when the remainder of the pattern fails.
    The result is the matched prefix and the unread suffix. *)
Fixpoint matchHere (items : list Item) : string -> option (string * string) :=
  match items with
  | [] => fun s => Some (EmptyString, s)
  | it :: items' =>
      let k := matchHere items' in
      match quant it with
      | One => fun s =>
          match s with
          | String a s' => if cls it a then consMatch a (k s') else None
          | EmptyString => None
          end
      | ZeroOrOne => fun s =>
          match s with
          | String a s' =>
              if cls it a
              then match consMatch a (k s') with
                   | Some r => Some r
                   | None => k s
                   end
              else k s
          | EmptyString => k s
          end
      | ZeroOrMore =>
          fix star (s : string) : option (string * string) :=
            match s with
            | String a s' =>
                if cls it a
                then match consMatch a (star s') with
                     | Some r => Some r
                     | None => k s
                     end
                else k s
            | EmptyString => k s
            end
      end
  end.

(** [re.FindAllString(s, -1)]: the successive non-overlapping matches, each
    the leftmost one after the end of the previous.  [skip] counts the
    characters of the current match still to be passed over.  The pattern
    needs a digit, so a match is never empty. *)
Fixpoint scanFrom (s : string) (skip : nat) : list string :=
  match s with
  | EmptyString => []
  | String _ s' =>
      match skip with
      | S n => scanFrom s' n
      | O =>
          match matchHere re s with
          | Some (m, _) => m :: scanFrom s' (Nat.pred (String.length m))
          | None => scanFrom s' 0
          end
      end
  end.

Definition FindAllString (s : string) : list string := scanFrom s 0.

(** [strings.Join(elems, "")]. *)
Definition Join (elems : list string) : string :=
  fold_right String.append EmptyString elems.

(** ** [strconv.ParseInt(s, 10, 64)]

    [None] stands for [err != nil] (syntax or range error).  The digits are
    accumulated without bound and the range is tested at the end, which
    accepts the same strings with the same values as the library's
    overflow checks on [uint64]. *)

Definition digitVal (a : ascii) : Z := Z.of_N (code a) - 48.

Fixpoint parseDigits (s : string) (acc : Z) : option Z :=
  match s with
  | EmptyString => Some acc
  | String a s' => if isDigit a then parseDigits s' (acc * 10 + digitVal a) else None
  end.

Definition ParseUint (s : string) : option Z :=
  match s with
  | EmptyString => None
  | _ => parseDigits s 0
  end.

Definition ParseInt (s : string) : option Z :=
  match s with
  | EmptyString => None
  | String a s' =>
      let neg := isMinus a in
      let body := if ((code a =? 43)%N || neg) then s' else s in
      match ParseUint body with
      | None => None
      | Some un =>
          if neg
          then if un <=? 2 ^ 63 then Some (- un) else None
          else if un <? 2 ^ 63 then Some un else None
      end
  end.

(** ** [strings.EqualFold]

    Comparison under simple case folding.  On ASCII text this is equality up
    to the case of letters; the model compares byte by byte, which is exact
    whenever one argument is ASCII without the letters k and s (the only
    ASCII letters whose folding orbit leaves ASCII), as is ["Inverter ID"]. *)

Definition lower (a : ascii) : N :=
  if ((65 <=? code a) && (code a <=? 90))%N then (code a + 32)%N else code a.

Fixpoint EqualFold (s t : string) : bool :=
  match s, t with
  | EmptyString, EmptyString => true
  | String a s', String b t' => (lower a =? lower b)%N && EqualFold s' t'
  | _, _ => false
  end.

(** ** Data model *)

Record LiveData := mkLiveData
  { CurrentPower : Z; Voltage : Z; Temperature : Z; Date : string }.

Record Panel := mkPanel
  { InverterID : string; HistoricalData : list LiveData }.

Record SolarData := mkSolarData
  { Uvi : float; UvMax : float; UvMaxTime : string;
    SunAltitude : float; SunAzimuth : float }.

(** [GlobalData]; its fields [Date] and [SolarData] are [GlobalDate] and
    [Solar] here, the first being a field of [LiveData] and the second the
    name of a type. *)
Record GlobalData := mkGlobalData
  { GlobalDate : string; Power : Z; Performance : float; Solar : SolarData }.

Definition maxPower : Z := 250.

(** [LiveData{}], also what indexing a Go map yields for an absent key. *)
Definition zeroLiveData : LiveData := mkLiveData 0 0 0 "".

Definition index (m : gmap string LiveData) (k : string) : LiveData :=
  default zeroLiveData (m !! k).

(** ** The row extractor: [parseRealTime]

    A table row is given by the texts of its cells: [ChildText e n] is what
    [e.ChildText("td:nth-child(n)")] returns, the trimmed text of the n-th
    cell and the empty string when the row has no such cell. *)

Definition HTMLElement := list string.

Definition ChildText (e : HTMLElement) (n : nat) : string := nth (Nat.pred n) e "".

(** The [OnHTML] callback, run once per row in document order; it updates
    [dataMap]. *)
Definition onRow (e : HTMLElement) (dataMap : gmap string LiveData) : gmap string LiveData :=
  let liveData := zeroLiveData in
  let id := ChildText e 1 in
  if EqualFold id "Inverter ID" then dataMap else
  let liveData :=
    match ParseInt (Join (FindAllString (ChildText e 2))) with
    | Some power => mkLiveData power (Voltage liveData) (Temperature liveData) (Date liveData)
    | None => liveData
    end in
  let liveData :=
    match ParseInt (Join (FindAllString (ChildText e 4))) with
    | Some voltage => mkLiveData (CurrentPower liveData) voltage (Temperature liveData) (Date liveData)
    | None => liveData
    end in
  let liveData :=
    match ParseInt (Join (FindAllString (ChildText e 5))) with
    | Some temperature => mkLiveData (CurrentPower liveData) (Voltage liveData) temperature (Date liveData)
    | None => liveData
    end in
  let liveData :=
    mkLiveData (CurrentPower liveData) (Voltage liveData) (Temperature liveData) (ChildText e 6) in
  if CurrentPower liveData =? 0 then dataMap else <[id := liveData]> dataMap.

(** What [c.Visit] meets: a request that fails, in which case no callback
    runs and [Visit] returns an error, or a page whose table rows are handed
    to the callback. *)
Inductive Visit := VisitError | Page (rows : list HTMLElement).

Definition collect (rows : list HTMLElement) : gmap string LiveData :=
  fold_left (fun dataMap e => onRow e dataMap) rows ∅.

(** [parseRealTime]: the value of [c.Visit] is dropped and [dataMap] is
    returned as it stands. *)
Definition parseRealTime (v : Visit) : gmap string LiveData :=
  match v with
  | VisitError => ∅
  | Page rows => collect rows
  end.

(** ** Runs that may abort

    [log.Fatal] and a [panic] that nothing recovers end the process. *)

Inductive Run (A : Type) : Type :=
| Abort (diagnostic : string)
| Return (a : A).
Arguments Abort {A} diagnostic.
Arguments Return {A} a.

#[global] Instance Run_bind : MBind Run := fun A B k r =>
  match r with
  | Abort d => Abort d
  | Return a => k a
  end.

(** ** The persistence layer

    A file is modelled by what [json.Unmarshal] makes of its bytes: either
    the bytes are the JSON text of a sequence [v], or [Unmarshal] returns an
    error (a syntax error, or a value of the wrong shape) and the target
    holds [partial], the part decoded before the error; a zero-length file is
    [Rejected []]. *)

Inductive Bytes (A : Type) : Type :=
| Rejected (partial : list A)
| Text (v : list A).
Arguments Rejected {A} partial.
Arguments Text {A} v.

(** [json.Unmarshal(byteValue, &xs)] with [xs] nil before the call: the
    value of [xs] afterwards, and whether an error was returned. *)
Definition Unmarshal {A : Type} (b : Bytes A) : list A * bool :=
  match b with
  | Rejected partial => (partial, true)
  | Text v => (v, false)
  end.

(** [json.MarshalIndent] on the summaries: a float that is NaN or infinite
    has no JSON text and makes the call return nil bytes and an error.  The
    strings of a summary are the formatted clock and what the decoder read,
    which are well-formed UTF-8 and are read back as they are. *)
Definition finite (f : float) : bool := negb (is_nan f || is_infinity f).

Definition encodable (g : GlobalData) : bool :=
  finite (Performance g) && finite (Uvi (Solar g)) && finite (UvMax (Solar g))
  && finite (SunAltitude (Solar g)) && finite (SunAzimuth (Solar g)).

(** Strings in the written text.  The encoder copies the well-formed UTF-8
    sequences of a string and writes the escape of U+FFFD for every byte at
    which [utf8.DecodeRuneInString] returns [RuneError] with size 1; the
    decoder turns the escape into the three bytes of U+FFFD.  [runeLen] is
    the size of the well-formed sequence at the head of [s], after the table
    of [unicode/utf8]: the lead byte fixes the size and the range of the
    second byte, the later bytes lie in 0x80-0xBF; [None] is the error. *)
Definition between (lo hi : N) (a : ascii) : bool := ((lo <=? code a) && (code a <=? hi))%N.

Fixpoint continues (ranges : list (N * N)) (s : string) : bool :=
  match ranges with
  | [] => true
  | (lo, hi) :: ranges' =>
      match s with
      | String b s' => between lo hi b && continues ranges' s'
      | EmptyString => false
      end
  end.

Definition sized (n : nat) (ranges : list (N * N)) (s : string) : option nat :=
  if continues ranges s then Some n else None.

Definition runeLen (s : string) : option nat :=
  match s with
  | EmptyString => None
  | String a s' =>
      if (code a <? 0x80)%N then Some 1%nat
      else if between 0xC2 0xDF a then sized 2 [(0x80, 0xBF)%N] s'
      else if between 0xE0 0xE0 a then sized 3 [(0xA0, 0xBF)%N; (0x80, 0xBF)%N] s'
      else if between 0xE1 0xEC a then sized 3 [(0x80, 0xBF)%N; (0x80, 0xBF)%N] s'
      else if between 0xED 0xED a then sized 3 [(0x80, 0x9F)%N; (0x80, 0xBF)%N] s'
      else if between 0xEE 0xEF a then sized 3 [(0x80, 0xBF)%N; (0x80, 0xBF)%N] s'
      else if between 0xF0 0xF0 a
           then sized 4 [(0x90, 0xBF)%N; (0x80, 0xBF)%N; (0x80, 0xBF)%N] s'
      else if between 0xF1 0xF3 a
           then sized 4 [(0x80, 0xBF)%N; (0x80, 0xBF)%N; (0x80, 0xBF)%N] s'
      else if between 0xF4 0xF4 a
           then sized 4 [(0x80, 0x8F)%N; (0x80, 0xBF)%N; (0x80, 0xBF)%N] s'
      else None
  end.

(** U+FFFD in UTF-8: EF BF BD. *)
Definition replacement (s : string) : string :=
  String (ascii_of_N 0xEF) (String (ascii_of_N 0xBF) (String (ascii_of_N 0xBD) s)).

(** What is read back for a string that was written; [skip] counts the
    bytes of the current sequence still to be copied. *)
Fixpoint writtenFrom (s : string) (skip : nat) : string :=
  match s with
  | EmptyString => EmptyString
  | String a s' =>
      match skip with
      | S n => String a (writtenFrom s' n)
      | O =>
          match runeLen s with
          | Some n => String a (writtenFrom s' (Nat.pred n))
          | None => replacement (writtenFrom s' 0)
          end
      end
  end.

Definition written (s : string) : string := writtenFrom s 0.

Definition writtenLiveData (r : LiveData) : LiveData :=
  mkLiveData (CurrentPower r) (Voltage r) (Temperature r) (written (Date r)).

Definition writtenPanel (p : Panel) : Panel :=
  mkPanel (written (InverterID p)) (writtenLiveData <$> HistoricalData p).

(** [json.MarshalIndent(panels, "", " ")]: integers and strings are always
    encoded, so there is no error; the text decodes to the panels with
    their strings as they are read back. *)
Definition MarshalPanels (panels : list Panel) : Bytes Panel * bool :=
  (Text (writtenPanel <$> panels), false).

Definition MarshalGlobals (globals : list GlobalData) : Bytes GlobalData * bool :=
  if forallb encodable globals then (Text globals, false) else (Rejected [], true).

(** The two files; [None] is a file that [os.Open] cannot open. *)
Record Files := mkFiles
  { panelFile : option (Bytes Panel); globalFile : option (Bytes GlobalData) }.

Definition loadPanelsFromJSON (fs : Files) : Run (list Panel) :=
  match panelFile fs with
  | None => Abort "opening panels file"
  | Some byteValue => Return (fst (Unmarshal byteValue))
  end.

Definition savePanels (panels : list Panel) (fs : Files) : Files :=
  let file := fst (MarshalPanels panels) in
  mkFiles (Some file) (globalFile fs).

Definition loadGlobalFromJSON (fs : Files) : Run (list GlobalData) :=
  match globalFile fs with
  | None => Abort "opening global file"
  | Some byteValue => Return (fst (Unmarshal byteValue))
  end.

Definition saveGlobal (globals : list GlobalData) (fs : Files) : Files :=
  let file := fst (MarshalGlobals globals) in
  mkFiles (panelFile fs) (Some file).

(** ** The aggregator: [main] *)

(** [float64(x)] for an [int64] [x]: the nearest binary64 value. *)
Definition float64 (x : Z) : float :=
  if x =? Int64.min then PrimFloat.opp (PrimFloat.mul (of_uint63 (Uint63.of_Z (2 ^ 62))) (of_uint63 2%uint63))
  else if x <? 0 then PrimFloat.opp (of_uint63 (Uint63.of_Z (- x)))
  else of_uint63 (Uint63.of_Z x).

(** One iteration of [for i, panel := range panels]. *)
Definition step (liveDataMap : gmap string LiveData) (i : nat)
    (st : list Panel * Z) : list Panel * Z :=
  let '(panels, totalOutput) := st in
  match panels !! i with
  | Some panel =>
      let reading := index liveDataMap (InverterID panel) in
      (<[i := mkPanel (InverterID panel) (HistoricalData panel ++ [reading])]> panels,
       Int64.add totalOutput (CurrentPower reading))
  | None => st
  end.

Definition merge (liveDataMap : gmap string LiveData) (panels : list Panel) : list Panel * Z :=
  fold_left (fun st i => step liveDataMap i st) (seq 0 (length panels)) (panels, 0).

(** The world a run meets: the inverter page, the outcome of
    [makeSolarData(getData(openUvURL, token))], the clock and the files. *)
Record World := mkWorld
  { page : Visit; uv : Run SolarData; now : string; files : Files }.

(** What a completed run leaves: the sequences handed to [savePanels] and
    [saveGlobal], and the files afterwards. *)
Record Done := mkDone
  { panels' : list Panel; globals' : list GlobalData; files' : Files }.

Definition main (w : World) : Run Done :=
  let liveDataMap := parseRealTime (page w) in
  solarData ← uv w;
  panels ← loadPanelsFromJSON (files w);
  let '(panels, totalOutput) := merge liveDataMap panels in
  let theoreticalTotalOutput := Int64.mul (Z.of_nat (length panels)) maxPower in
  let globalData :=
    mkGlobalData (now w) totalOutput
      (PrimFloat.mul (PrimFloat.div (float64 totalOutput) (float64 theoreticalTotalOutput))
                     (float64 100))
      solarData in
  globals ← loadGlobalFromJSON (files w);
  let globals := globals ++ [globalData] in
  let fs := savePanels panels (files w) in
  let fs := saveGlobal globals fs in
  Return (mkDone panels globals fs).

(** ** The UV API client and the solar data mapper: [getData], [makeSolarData]

    A decoded JSON value, as [encoding/json] stores it in an [interface{}]:
    [nil] for null, [bool], [float64] for every number, [string],
    [[]interface{}] and [map[string]interface{}]. *)

#[local] Set Warnings "-register-all".
Inductive value : Type :=
| Nil
| Bool (b : bool)
| Number (f : float)
| Str (s : string)
| Array (l : list value)
| Object (m : gmap string value).
#[local] Set Warnings "register-all".

(** What [client.Do] and the reading of the body give: an error of [Do]
    (the response is then nil), a body that cannot be read, or a body,
    modelled by what [json.Unmarshal] makes of it for a target of type
    [map[string]interface{}]: an error ([None]: no JSON text, or JSON that
    is no object) or the decoded object (JSON null leaves the nil map, which
    reads like the empty one). *)
Inductive Response :=
| DoError
| ReadError
| Body (decoded : option (gmap string value)).

(** [getData]: after an error of [Do] the message is only logged, and the
    following [resp.Body] on the nil response panics. *)
Definition getData (r : Response) : Run (gmap string value) :=
  match r with
  | DoError => Abort "invalid memory address or nil pointer dereference"
  | ReadError => Abort "reading the body"
  | Body None => Abort "parsing the body"
  | Body (Some data) => Return data
  end.

(** The type assertions [x.(map[string]interface{})], [x.(float64)] and
    [x.(string)] on the result of indexing a map: they panic on a value of
    another type, and on the nil interface an absent key yields. *)
Definition assertObject (x : option value) : Run (gmap string value) :=
  match x with
  | Some (Object m) => Return m
  | _ => Abort "interface conversion"
  end.

Definition assertFloat (x : option value) : Run float :=
  match x with
  | Some (Number f) => Return f
  | _ => Abort "interface conversion"
  end.

Definition assertString (x : option value) : Run string :=
  match x with
  | Some (Str s) => Return s
  | _ => Abort "interface conversion"
  end.

Definition makeSolarData (data : gmap string value) : Run SolarData :=
  result ← assertObject (data !! "result");
  uvi ← assertFloat (result !! "uv");
  uvMax ← assertFloat (result !! "uv_max");
  uvMaxTime ← assertString (result !! "uv_max_time");
  sunInfo ← assertObject (result !! "sun_info");
  sunPosition ← assertObject (sunInfo !! "sun_position");
  altitude ← assertFloat (sunPosition !! "altitude");
  azimuth ← assertFloat (sunPosition !! "azimuth");
  Return (mkSolarData uvi uvMax uvMaxTime altitude azimuth).

(** [makeSolarData(getData(openUvURL, token))], the second step of [main]. *)
Definition solarOf (r : Response) : Run SolarData :=
  data ← getData r; makeSolarData data.

(** ** The run and the file system

    [main] once more, with the files threaded through its steps in the order
    of the source: a step reads or rewrites the files it is given, and a
    step that aborts ends the run with the files as they are at that point. *)
Definition Effect (A : Type) : Type := Files -> Run A * Files.

#[global] Instance Effect_ret : MRet Effect := fun A a fs => (Return a, fs).

#[global] Instance Effect_bind : MBind Effect := fun A B k m fs =>
  match m fs with
  | (Abort d, fs') => (Abort d, fs')
  | (Return a, fs') => k a fs'
  end.

(** A step that does not touch the files, the two loads and the two saves. *)
Definition pure {A : Type} (r : Run A) : Effect A := fun fs => (r, fs).

Definition loadPanels : Effect (list Panel) := fun fs => (loadPanelsFromJSON fs, fs).

Definition loadGlobal : Effect (list GlobalData) := fun fs => (loadGlobalFromJSON fs, fs).

Definition writePanels (panels : list Panel) : Effect unit :=
  fun fs => (Return tt, savePanels panels fs).

Definition writeGlobal (globals : list GlobalData) : Effect unit :=
  fun fs => (Return tt, saveGlobal globals fs).

Definition mainOnFiles (page : Visit) (uv : Run SolarData) (now : string)
    : Effect (list Panel * list GlobalData) :=
  let liveDataMap := parseRealTime page in
  solarData ← pure uv;
  panels ← loadPanels;
  let '(panels, totalOutput) := merge liveDataMap panels in
  let theoreticalTotalOutput := Int64.mul (Z.of_nat (length panels)) maxPower in
  let globalData :=
    mkGlobalData now totalOutput
      (PrimFloat.mul (PrimFloat.div (float64 totalOutput) (float64 theoreticalTotalOutput))
                     (float64 100))
      solarData in
  globals ← loadGlobal;
  let globals := globals ++ [globalData] in
  _ ← writePanels panels;
  _ ← writeGlobal globals;
  mret (panels, globals).

(** ** Successive invocations

    What one invocation of the program meets besides the files, and the
    files it leaves. *)
Record Invocation := mkInvocation
  { seen : Visit; answer : Response; clock : string }.

Definition after (fs : Files) (i : Invocation) : Files :=
  (mainOnFiles (seen i) (solarOf (answer i)) (clock i) fs).2.

Definition afterAll (runs : list Invocation) (fs : Files) : Files := fold_left after runs fs.

(** Whether the UV step of an invocation succeeds. *)
Definition answered (i : Invocation) : bool :=
  match solarOf (answer i) with
  | Return _ => true
  | Abort _ => false
  end.

(** ** Vocabulary of the statements

    Shapes of cell texts, and the row extractor's result read off a row. *)

Definition headIs (c : ascii -> bool) (s : string) : bool :=
  match s with
  | String a _ => c a
  | EmptyString => false
  end.

Fixpoint allIn (c : ascii -> bool) (s : string) : bool :=
  match s with
  | EmptyString => true
  | String a s' => c a && allIn c s'
  end.

(** A text without any digit: the pattern matches nowhere in it. *)
Definition noDigit (s : string) : bool := allIn (fun a => negb (isDigit a)) s.

Definition allDigits (s : string) : bool := allIn isDigit s.

(** A plain numeral: digits, with at most a minus in front. *)
Definition plain (s : string) : bool :=
  match s with
  | String a s' =>
      if isMinus a then headIs isDigit s' && allDigits s'
      else isDigit a && allDigits s'
  | EmptyString => false
  end.

(** The characters the pattern would draw into a match after a digit. *)
Definition joins (a : ascii) : bool := isDigit a || isComma a || isDot a || isBrace a.

Definition startsNumber (s : string) : bool :=
  match s with
  | String a s' => isDigit a || (isMinus a && headIs isDigit s')
  | EmptyString => false
  end.

Fixpoint endsWithMinus (s : string) : bool :=
  match s with
  | EmptyString => false
  | String a EmptyString => isMinus a
  | String _ s' => endsWithMinus s'
  end.

(** Text in front of a numeral [s] in which no match starts: no digit, and
    no minus right before a digit of [s]. *)
Definition gap (pre s : string) : bool :=
  noDigit pre && negb (endsWithMinus pre && headIs isDigit s).

(** A comma, a point or a brace; a text that holds one; and a text in which
    some digit is directly followed by one. *)
Definition isSeparator (a : ascii) : bool := isComma a || isDot a || isBrace a.

Fixpoint hasSeparator (s : string) : bool :=
  match s with
  | EmptyString => false
  | String a s' => isSeparator a || hasSeparator s'
  end.

Fixpoint digitThenSeparator (s : string) : bool :=
  match s with
  | EmptyString => false
  | String a s' => (isDigit a && headIs isSeparator s') || digitThenSeparator s'
  end.

(** The value a numeric cell gives: the three [if v, err := ...; err == nil]
    statements of the callback leave the zero of [LiveData{}] on an error. *)
Definition field (cell : string) : Z :=
  default 0 (ParseInt (Join (FindAllString cell))).

Definition isHeader (e : HTMLElement) : bool := EqualFold (ChildText e 1) "Inverter ID".

Definition reading (e : HTMLElement) : LiveData :=
  mkLiveData (field (ChildText e 2)) (field (ChildText e 4)) (field (ChildText e 5))
             (ChildText e 6).

(** Whether the callback stores the row, and whether it stores it under [k]. *)
Definition kept (e : HTMLElement) : bool :=
  negb (isHeader e) && negb (CurrentPower (reading e) =? 0).

Definition keptAs (k : string) (e : HTMLElement) : bool :=
  kept e && bool_decide (ChildText e 1 = k).

(** The numeric field as the specification words it: the first run that
    matches the pattern, its separators stripped, parsed as an integer;
    zero when there is no run. *)
Fixpoint stripSeparators (s : string) : string :=
  match s with
  | EmptyString => EmptyString
  | String a s' =>
      if isComma a || isDot a then stripSeparators s' else String a (stripSeparators s')
  end.

Definition specField (cell : string) : Z :=
  match FindAllString cell with
  | m :: _ => default 0 (ParseInt (stripSeparators m))
  | [] => 0
  end.

(** The reading appended to a panel by the last run, and sums of powers. *)
Definition appended (p : Panel) : LiveData := List.last (HistoricalData p) zeroLiveData.

Definition sumPower (rs : list LiveData) : Z := foldr Z.add 0 (CurrentPower <$> rs).

(** What the merge loop makes of one panel. *)
Definition grow (liveDataMap : gmap string LiveData) (p : Panel) : Panel :=
  mkPanel (InverterID p) (HistoricalData p ++ [index liveDataMap (InverterID p)]).

(** A panel that kept its identifier and its former readings and gained
    [n] further ones. *)
Definition grew (n : nat) (p p' : Panel) : Prop :=
  InverterID p' = InverterID p
  /\ exists added,
       HistoricalData p' = HistoricalData p ++ added /\ length added = n.

(** ** Sample worlds

    A solar snapshot, a stored reading and a stored summary, used where a
    statement is evaluated on a concrete run. *)

Definition sunny : SolarData := mkSolarData 5.5 7.25 "2024-01-01T11:52:00Z" 0.5 (-0.25).

Definition yesterday : LiveData := mkLiveData 180 229 31 "2023-12-31 10:00:00".

Definition stored : GlobalData := mkGlobalData "2023-12-31 10:00:00" 180 72 sunny.

(** Two panels that both answer. *)
Definition twoPanels : World :=
  mkWorld (Page [ ["Inverter ID"; "Power"; ""; "Voltage"; "Temp"; "Date"]
                ; ["INV1"; "100 W"; ""; "230 V"; "35 C"; "2024-01-01 10:00:00"]
                ; ["INV2"; "150 W"; ""; "231 V"; "36 C"; "2024-01-01 10:00:00"]
                ; ["INV9"; "90 W"; ""; "228 V"; "30 C"; "2024-01-01 10:00:00"] ])
          (Return sunny) "2024-01-01 10:00:05"
          (mkFiles (Some (Text [mkPanel "INV1" [yesterday]; mkPanel "INV2" []]))
                   (Some (Text [stored]))).

(** The inverter page cannot be fetched. *)
Definition unreachable : World :=
  mkWorld VisitError (Return sunny) "2024-01-01 10:00:05"
          (mkFiles (Some (Text [mkPanel "INV1" [yesterday]])) (Some (Text [stored]))).

(** [panels.json] does not hold JSON. *)
Definition garbled : World :=
  mkWorld (Page [["INV1"; "100 W"; ""; "230 V"; "35 C"; "2024-01-01 10:00:00"]])
          (Return sunny) "2024-01-01 10:00:05"
          (mkFiles (Some (Rejected [])) (Some (Text [stored]))).

(** [panels.json] holds the empty array. *)
Definition noPanels : World :=
  mkWorld (Page [["INV1"; "100 W"; ""; "230 V"; "35 C"; "2024-01-01 10:00:00"]])
          (Return sunny) "2024-01-01 10:00:05"
          (mkFiles (Some (Text [])) (Some (Text [stored]))).

(** An answer of the UV API that holds everything [makeSolarData] reads,
    and the answer it gives once the daily quota is used up. *)
Definition fullAnswer : Response :=
  Body (Some
    {[ "result" :=
         Object
           {[ "uv" := Number 5.5; "uv_time" := Str "2024-01-01T10:00:05Z";
              "uv_max" := Number 7.25; "uv_max_time" := Str "2024-01-01T11:52:00Z";
              "ozone" := Number 310; "safe_exposure_time" := Nil;
              "sun_info" :=
                Object
                  {[ "sun_times" := Object ∅;
                     "sun_position" :=
                       Object {[ "azimuth" := Number (-0.25); "altitude" := Number 0.5 ]} ]} ]} ]}).

Definition quotaAnswer : Response :=
  Body (Some {[ "error" := Str "Daily API quota exceeded" ]}).

(** Three invocations on the files of [twoPanels]: the second gets no UV
    data, the third cannot fetch the inverter page. *)
Definition threeRuns : list Invocation :=
  [ mkInvocation (page twoPanels) fullAnswer "2024-01-01 10:00:05"
  ; mkInvocation (page twoPanels) quotaAnswer "2024-01-01 10:05:05"
  ; mkInvocation VisitError fullAnswer "2024-01-01 10:10:05" ].

(** * Properties *)

(** ** Matching the pattern *)

Section Matching.

Implicit Types (c : ascii -> bool) (items : list Item) (s : string).
Lemma matchHere_One c items s :
  matchHere (mkItem c One :: items) s =
  match s with
  | String a s' => if c a then consMatch a (matchHere items s') else None
  | EmptyString => None
  end.
Proof. destruct s; reflexivity. Qed.

Lemma matchHere_ZeroOrOne c items s :
  matchHere (mkItem c ZeroOrOne :: items) s =
  match s with
  | String a s' =>
      if c a
      then match consMatch a (matchHere items s') with
           | Some r => Some r
           | None => matchHere items s
           end
      else matchHere items s
  | EmptyString => matchHere items s
  end.
Proof. destruct s; reflexivity. Qed.

Lemma matchHere_ZeroOrMore c items s :
  matchHere (mkItem c ZeroOrMore :: items) s =
  match s with
  | String a s' =>
      if c a
      then match consMatch a (matchHere (mkItem c ZeroOrMore :: items) s') with
           | Some r => Some r
           | None => matchHere items s
           end
      else matchHere items s
  | EmptyString => matchHere items s
  end.
Proof. destruct s; reflexivity. Qed.

(** A greedy class takes a whole run of its characters when the rest of
    the pattern matches what comes after the run. *)
Lemma matchHere_run c items run rest m rest' :
  allIn c run = true ->
  headIs c rest = false ->
  matchHere items rest = Some (m, rest') ->
  matchHere (mkItem c ZeroOrMore :: items) (run +:+ rest) = Some (run +:+ m, rest').
Proof.
  intros Hrun Hrest Hk. induction run as [|a run IH].
  - change (EmptyString +:+ rest) with rest. change (EmptyString +:+ m) with m.
    rewrite matchHere_ZeroOrMore. destruct rest as [|b rest]; [exact Hk|].
    simpl in Hrest. rewrite Hrest. exact Hk.
  - simpl in Hrun. apply andb_prop in Hrun as [Ha Hrun].
    change (String a run +:+ rest) with (String a (run +:+ rest)).
    rewrite matchHere_ZeroOrMore, Ha, (IH Hrun). reflexivity.
Qed.

Lemma matchHere_skip c items rest (q : Quant) :
  q <> One ->
  headIs c rest = false ->
  matchHere (mkItem c q :: items) rest = matchHere items rest.
Proof.
  intros Hq Hrest. destruct q; [congruence| |].
  - rewrite matchHere_ZeroOrOne. destruct rest; [reflexivity|].
    simpl in Hrest. now rewrite Hrest.
  - rewrite matchHere_ZeroOrMore. destruct rest; [reflexivity|].
    simpl in Hrest. now rewrite Hrest.
Qed.

End Matching.

Lemma append_empty_l (t : string) : EmptyString +:+ t = t.
Proof. reflexivity. Qed.

Lemma append_cons (a : ascii) (s t : string) : String a s +:+ t = String a (s +:+ t).
Proof. reflexivity. Qed.

Lemma append_empty_r (s : string) : s +:+ EmptyString = s.
Proof.
  induction s as [|a s IH]; [reflexivity|]. now rewrite append_cons, IH.
Qed.

Lemma isMinus_not_digit a : isMinus a = true -> isDigit a = false.
Proof.
  unfold isMinus, isDigit. intros H%N.eqb_eq. rewrite H. reflexivity.
Qed.

Lemma digit_not_minus a : isDigit a = true -> isMinus a = false.
Proof.
  intros H. destruct (isMinus a) eqn:E; [|reflexivity].
  apply isMinus_not_digit in E. congruence.
Qed.

Lemma matchHere_re_None s : startsNumber s = false -> matchHere re s = None.
Proof.
  intros H. unfold re. rewrite matchHere_ZeroOrOne.
  destruct s as [|a s']; [reflexivity|].
  simpl in H. apply orb_false_elim in H as [Hd Hm].
  assert (Hk : matchHere (tl re) (String a s') = None).
  { unfold re; simpl tl. rewrite matchHere_One, Hd. reflexivity. }
  unfold re in Hk; simpl tl in Hk. rewrite Hk.
  destruct (isMinus a) eqn:Ea; [|reflexivity].
  simpl in Hm. rewrite matchHere_One.
  destruct s' as [|b s'']; [reflexivity|].
  simpl in Hm. rewrite Hm. reflexivity.
Qed.

(** After a digit the pattern takes the digits that follow and stops in
    front of a character that is no digit, comma, point or brace. *)
Lemma matchHere_digits_tail ds rest :
  allDigits ds = true ->
  headIs joins rest = false ->
  matchHere (tl (tl re)) (ds +:+ rest) = Some (ds, rest).
Proof.
  intros Hds Hrest. unfold re; simpl tl.
  assert (Hj : forall p : ascii -> bool,
             (forall a, p a = true -> joins a = true) -> headIs p rest = false).
  { intros p Hp. destruct rest as [|b rest]; [reflexivity|]. simpl in *.
    destruct (p b) eqn:E; [|reflexivity]. apply Hp in E. congruence. }
  rewrite <- (append_empty_r ds) at 2.
  apply matchHere_run.
  - clear -Hds. induction ds as [|a ds IH]; [reflexivity|]. simpl in *.
    apply andb_prop in Hds as [-> Hds]. simpl. auto.
  - apply Hj. intros a. unfold joins.
    destruct (isDigit a), (isComma a); simpl; auto; discriminate.
  - rewrite matchHere_skip; [|discriminate|].
    + rewrite matchHere_skip; [reflexivity|discriminate|].
      apply Hj. intros a. unfold joins.
      destruct (isDigit a), (isComma a), (isDot a), (isBrace a); simpl; auto; discriminate.
    + apply Hj. intros a. unfold joins.
      destruct (isDigit a), (isComma a), (isDot a); simpl; auto; discriminate.
Qed.

Lemma matchHere_re_plain body rest :
  plain body = true ->
  headIs joins rest = false ->
  matchHere re (body +:+ rest) = Some (body, rest).
Proof.
  intros Hb Hrest. destruct body as [|a body]; [discriminate|].
  simpl in Hb. unfold re. rewrite matchHere_ZeroOrOne, append_cons.
  destruct (isMinus a) eqn:Ea.
  - apply andb_prop in Hb as [Hh Hds].
    destruct body as [|d ds]; [discriminate|]. simpl in Hh, Hds.
    apply andb_prop in Hds as [_ Hds].
    rewrite matchHere_One, append_cons, Hh.
    pose proof (matchHere_digits_tail ds rest Hds Hrest) as Ht.
    unfold re in Ht; simpl tl in Ht. rewrite Ht. reflexivity.
  - apply andb_prop in Hb as [Hd Hds].
    rewrite matchHere_One, Hd.
    pose proof (matchHere_digits_tail body rest Hds Hrest) as Ht.
    unfold re in Ht; simpl tl in Ht. rewrite Ht. reflexivity.
Qed.

(** ** Scanning a cell text *)

Lemma scanFrom_0 a s :
  scanFrom (String a s) 0 =
  match matchHere re (String a s) with
  | Some (m, _) => m :: scanFrom s (Nat.pred (String.length m))
  | None => scanFrom s 0
  end.
Proof. reflexivity. Qed.

Lemma scanFrom_skip m rest :
  scanFrom (m +:+ rest) (String.length m) = scanFrom rest 0.
Proof.
  induction m as [|a m IH]; [reflexivity|].
  rewrite append_cons. simpl. exact IH.
Qed.

Lemma headIs_append c body rest :
  body <> EmptyString -> headIs c (body +:+ rest) = headIs c body.
Proof. destruct body; [congruence|reflexivity]. Qed.

Lemma gap_cons a pre s :
  gap (String a pre) s = true ->
  startsNumber (String a (pre +:+ s)) = false /\ gap pre s = true.
Proof.
  unfold gap, noDigit. simpl allIn. intros H.
  apply andb_prop in H as [H Hm]. apply andb_prop in H as [Ha Hpre].
  apply negb_true_iff in Ha. simpl startsNumber. rewrite Ha, Hpre. simpl.
  destruct pre as [|b pre].
  - rewrite append_empty_l. simpl in Hm. apply negb_true_iff in Hm. auto.
  - rewrite append_cons. simpl headIs. simpl in Hpre.
    apply andb_prop in Hpre as [Hb _]. apply negb_true_iff in Hb. rewrite Hb.
    split; [apply andb_false_r|exact Hm].
Qed.

Lemma scanFrom_gap pre s : gap pre s = true -> scanFrom (pre +:+ s) 0 = scanFrom s 0.
Proof.
  induction pre as [|a pre IH]; intros H; [reflexivity|].
  apply gap_cons in H as [Hn Hg]. rewrite append_cons.
  rewrite scanFrom_0, (matchHere_re_None _ Hn). auto.
Qed.

Lemma FindAllString_noDigit s : noDigit s = true -> FindAllString s = [].
Proof.
  intros H. unfold FindAllString. rewrite <- (append_empty_r s).
  rewrite scanFrom_gap; [reflexivity|].
  unfold gap. rewrite H. simpl. now rewrite andb_false_r.
Qed.

Lemma plain_nonempty body : plain body = true -> body <> EmptyString.
Proof. destruct body; [discriminate|congruence]. Qed.

(** Every plain numeral of the text is found, in order: the search passes
    over what precedes it, takes it whole and resumes right after it. *)
Lemma FindAllString_run pre body rest :
  gap pre body = true ->
  plain body = true ->
  headIs joins rest = false ->
  FindAllString (pre +:+ body +:+ rest) = body :: FindAllString rest.
Proof.
  intros Hg Hb Hrest. unfold FindAllString.
  pose proof (plain_nonempty _ Hb) as Hne.
  rewrite scanFrom_gap.
  2:{ unfold gap in *. now rewrite headIs_append. }
  pose proof (matchHere_re_plain body rest Hb Hrest) as Hm.
  destruct body as [|a body]; [congruence|].
  rewrite append_cons in *. rewrite scanFrom_0, Hm.
  f_equal. apply scanFrom_skip.
Qed.

(** ** Parsing a numeral *)

Lemma pretty_N_char_digit d :
  (d < 10)%N ->
  isDigit (pretty_N_char d) = true /\ digitVal (pretty_N_char d) = Z.of_N d.
Proof.
  intros H.
  assert (d = 0 \/ d = 1 \/ d = 2 \/ d = 3 \/ d = 4 \/ d = 5 \/ d = 6 \/ d = 7
          \/ d = 8 \/ d = 9)%N as Hd by lia.
  repeat (destruct Hd as [->|Hd]; [split; reflexivity|]). subst. split; reflexivity.
Qed.

Lemma parseDigits_pretty_N_go x s :
  parseDigits (pretty_N_go x s) 0 = parseDigits s (Z.of_N x).
Proof.
  revert s. induction (N.lt_wf_0 x) as [x _ IH]; intros s.
  destruct (N.eq_dec x 0%N) as [->|Hx]; [now rewrite pretty_N_go_0|].
  rewrite pretty_N_go_step by lia.
  rewrite IH by (apply N.div_lt; lia).
  destruct (pretty_N_char_digit (x `mod` 10)%N) as [Hd Hv].
  { apply N.mod_lt. lia. }
  simpl parseDigits. rewrite Hd, Hv. f_equal.
  rewrite (N.div_mod x 10) at 3 by lia. lia.
Qed.

Lemma allDigits_pretty_N_go x s :
  allDigits s = true -> allDigits (pretty_N_go x s) = true.
Proof.
  revert s. induction (N.lt_wf_0 x) as [x _ IH]; intros s Hs.
  destruct (N.eq_dec x 0%N) as [->|Hx]; [now rewrite pretty_N_go_0|].
  rewrite pretty_N_go_step by lia.
  apply IH; [apply N.div_lt; lia|].
  destruct (pretty_N_char_digit (x `mod` 10)%N) as [Hd _].
  { apply N.mod_lt. lia. }
  unfold allDigits in *. simpl. now rewrite Hd, Hs.
Qed.

Lemma headIs_pretty_N_go x s :
  (0 < x)%N \/ headIs isDigit s = true -> headIs isDigit (pretty_N_go x s) = true.
Proof.
  revert s. induction (N.lt_wf_0 x) as [x _ IH]; intros s Hs.
  destruct (N.eq_dec x 0%N) as [->|Hx].
  { rewrite pretty_N_go_0. destruct Hs as [Hs|Hs]; [lia|exact Hs]. }
  rewrite pretty_N_go_step by lia.
  apply IH; [apply N.div_lt; lia|]. right.
  destruct (pretty_N_char_digit (x `mod` 10)%N) as [Hd _]; [apply N.mod_lt; lia|].
  exact Hd.
Qed.

Lemma pretty_positive_digits p :
  let s := pretty_N_go (N.pos p) EmptyString in
  headIs isDigit s = true /\ allDigits s = true /\ parseDigits s 0 = Some (Z.pos p).
Proof.
  cbv zeta. split; [|split].
  - apply headIs_pretty_N_go. left. lia.
  - now apply allDigits_pretty_N_go.
  - rewrite parseDigits_pretty_N_go. reflexivity.
Qed.

Lemma pretty_Z_plain (z : Z) : plain (pretty z) = true.
Proof.
  destruct z as [|p|p]; [reflexivity| |].
  - change (pretty (Z.pos p)) with (pretty_N_go (N.pos p) EmptyString).
    destruct (pretty_positive_digits p) as (Hh & Ha & _).
    destruct (pretty_N_go (N.pos p) EmptyString) as [|a s]; [discriminate|].
    simpl in *. rewrite (digit_not_minus _ Hh), Hh.
    unfold allDigits in Ha. simpl in Ha. now rewrite Hh in Ha.
  - change (pretty (Z.neg p)) with (String "-" (pretty_N_go (N.pos p) EmptyString)).
    destruct (pretty_positive_digits p) as (Hh & Ha & _).
    simpl. now rewrite Hh, Ha.
Qed.

Lemma pretty_Z_head (z : Z) : headIs isDigit (pretty z) = (0 <=? z).
Proof.
  destruct z as [|p|p]; [reflexivity| |reflexivity].
  change (pretty (Z.pos p)) with (pretty_N_go (N.pos p) EmptyString).
  now destruct (pretty_positive_digits p) as (-> & _).
Qed.

Lemma ParseInt_pretty (z : Z) : Int64.inRange z -> ParseInt (pretty z) = Some z.
Proof.
  unfold Int64.inRange, Int64.min, Int64.max. intros Hz.
  destruct z as [|p|p]; [reflexivity| |].
  - change (pretty (Z.pos p)) with (pretty_N_go (N.pos p) EmptyString).
    destruct (pretty_positive_digits p) as (Hh & _ & Hp).
    destruct (pretty_N_go (N.pos p) EmptyString) as [|a s] eqn:E; [discriminate|].
    simpl in Hh. unfold ParseInt. rewrite (digit_not_minus _ Hh).
    assert (Hplus : (code a =? 43)%N = false).
    { unfold isDigit in Hh. apply andb_prop in Hh as [H1 _].
      apply N.leb_le in H1. apply N.eqb_neq. lia. }
    rewrite Hplus. simpl orb. cbv iota. unfold ParseUint. rewrite Hp.
    destruct (Z.ltb_spec (Z.pos p) (2 ^ 63)); [reflexivity|lia].
  - change (pretty (Z.neg p)) with (String "-" (pretty_N_go (N.pos p) EmptyString)).
    destruct (pretty_positive_digits p) as (Hh & _ & Hp).
    unfold ParseInt. change (isMinus "-") with true. rewrite orb_true_r. cbv iota.
    unfold ParseUint.
    destruct (pretty_N_go (N.pos p) EmptyString) as [|a s] eqn:E; [discriminate|].
    rewrite Hp. destruct (Z.leb_spec (Z.pos p) (2 ^ 63)); [reflexivity|lia].
Qed.

(** ** The numeric fields of a row *)

Lemma field_noDigit cell : noDigit cell = true -> field cell = 0.
Proof. intros H. unfold field. now rewrite FindAllString_noDigit. Qed.

Lemma field_pretty pre post (z : Z) :
  Int64.inRange z ->
  noDigit pre = true ->
  (0 <= z -> endsWithMinus pre = false) ->
  noDigit post = true ->
  headIs joins post = false ->
  field (pre +:+ pretty z +:+ post) = z.
Proof.
  intros Hz Hpre Hend Hpost Hj. unfold field.
  rewrite FindAllString_run, (FindAllString_noDigit _ Hpost);
    [|unfold gap; rewrite Hpre, pretty_Z_head; simpl|apply pretty_Z_plain|exact Hj].
  - simpl Join. now rewrite append_empty_r, ParseInt_pretty.
  - destruct (Z.leb_spec 0 z); [rewrite Hend by lia; reflexivity|now rewrite andb_false_r].
Qed.

Lemma onRow_eq e dataMap :
  onRow e dataMap =
  if isHeader e then dataMap
  else if CurrentPower (reading e) =? 0 then dataMap
       else <[ChildText e 1 := reading e]> dataMap.
Proof.
  unfold onRow, isHeader, reading, field.
  destruct (EqualFold _ _); [reflexivity|].
  destruct (ParseInt (Join (FindAllString (ChildText e 2))));
    destruct (ParseInt (Join (FindAllString (ChildText e 4))));
    destruct (ParseInt (Join (FindAllString (ChildText e 5)))); reflexivity.
Qed.

(** C1 (as amended).  The power, voltage and temperature of the reading
    stored for a row are [field] of its cells 2, 4 and 5, where [field]
    collects every run of the cell text matching the pattern, joins the runs
    and parses the result as a base-10 [int64]:
    - the reading stored for a kept row has these three fields;
    - every plain numeral of a text is collected, in order, the search
      resuming right after it;
    - a cell whose only numeral is the decimal text of an [int64] [z] gives [z];
    - a cell without a digit gives zero, not an error. *)
Theorem numeric_fields_from_joined_runs :
  (forall e dataMap, kept e = true ->
     onRow e dataMap !! ChildText e 1
     = Some (mkLiveData (field (ChildText e 2)) (field (ChildText e 4))
                        (field (ChildText e 5)) (ChildText e 6)))
  /\ (forall pre body rest,
        gap pre body = true -> plain body = true -> headIs joins rest = false ->
        Join (FindAllString (pre +:+ body +:+ rest)) = body +:+ Join (FindAllString rest))
  /\ (forall pre post z,
        Int64.inRange z -> noDigit pre = true -> (0 <= z -> endsWithMinus pre = false) ->
        noDigit post = true -> headIs joins post = false ->
        field (pre +:+ pretty z +:+ post) = z)
  /\ (forall cell, noDigit cell = true -> field cell = 0).
Proof.
  split; [|split; [|split]].
  - intros e dataMap H. unfold kept in H. apply andb_prop in H as [Hh Hp].
    rewrite onRow_eq. apply negb_true_iff in Hh, Hp. rewrite Hh, Hp.
    apply lookup_insert_eq.
  - intros pre body rest Hg Hb Hr. now rewrite FindAllString_run.
  - apply field_pretty.
  - apply field_noDigit.
Qed.

Lemma numeric_fields_witness :
  field "1234 W" = 1234 /\ field "-7 C" = -7 /\ field "n/a" = 0
  /\ Join (FindAllString "12 of 34") = "1234".
Proof.
  destruct numeric_fields_from_joined_runs as (_ & Hrun & Hz & H0).
  split; [|split; [|split]].
  - apply (Hz "" " W" 1234); [unfold Int64.inRange, Int64.min, Int64.max; lia|reflexivity..].
  - apply (Hz "" " C" (-7)); [unfold Int64.inRange, Int64.min, Int64.max; lia|reflexivity|lia|reflexivity..].
  - apply (H0 "n/a"). reflexivity.
  - exact (Hrun "" "12" " of 34" eq_refl eq_refl eq_refl).
Defined.

(** C1 (as stated) fails: the joined runs keep their separators, so a cell
    with a thousands separator or a decimal point does not parse and gives
    zero (and its row is dropped), and a second run is not ignored but
    appended to the first. *)
Lemma first_run_separators_stripped_refuted :
  field "1,234 W" = 0 /\ specField "1,234 W" = 1234
  /\ field "12.5" = 0 /\ specField "12.5" = 125
  /\ field "12 of 34" = 1234 /\ specField "12 of 34" = 12
  /\ collect [["INV1"; "1,234 W"; ""; "230 V"; "35"; "2024-01-01 10:00:00"]] = ∅
  /\ ~ (forall cell, field cell = specField cell).
Proof.
  repeat split; try reflexivity.
  intros H. specialize (H "1,234 W"). discriminate H.
Qed.

(** ** The result mapping *)

Lemma collect_app rows1 rows2 :
  collect (rows1 ++ rows2) = fold_left (fun dataMap e => onRow e dataMap) rows2 (collect rows1).
Proof. unfold collect. apply fold_left_app. Qed.

Lemma collect_snoc rows e : collect (rows ++ [e]) = onRow e (collect rows).
Proof. now rewrite collect_app. Qed.

Lemma onRow_not_kept e dataMap : kept e = false -> onRow e dataMap = dataMap.
Proof.
  unfold kept. rewrite onRow_eq. intros H.
  destruct (isHeader e); [reflexivity|].
  destruct (CurrentPower (reading e) =? 0); [reflexivity|discriminate].
Qed.

Lemma onRow_kept e dataMap :
  kept e = true -> onRow e dataMap = <[ChildText e 1 := reading e]> dataMap.
Proof.
  unfold kept. rewrite onRow_eq. intros H.
  destruct (isHeader e); [discriminate|].
  destruct (CurrentPower (reading e) =? 0); [discriminate|reflexivity].
Qed.

(** A row the callback does not store leaves the whole result as it is
    without the row. *)
Lemma collect_drop_row rows1 e rows2 :
  kept e = false -> collect (rows1 ++ e :: rows2) = collect (rows1 ++ rows2).
Proof.
  intros H. rewrite !collect_app. simpl. now rewrite onRow_not_kept.
Qed.

(** The entry under [k] is the reading of the last stored row named [k]. *)
Lemma collect_lookup rows k :
  collect rows !! k = reading <$> last (List.filter (keptAs k) rows).
Proof.
  induction rows as [|e rows IH] using rev_ind; [reflexivity|].
  rewrite collect_snoc, List.filter_app. simpl List.filter.
  unfold keptAs at 2. destruct (kept e) eqn:Hk; simpl.
  - rewrite onRow_kept by exact Hk.
    destruct (bool_decide_reflect (ChildText e 1 = k)) as [->|Hne].
    + now rewrite lookup_insert_eq, last_snoc.
    + rewrite lookup_insert_ne by exact Hne. now rewrite app_nil_r.
  - rewrite onRow_not_kept by exact Hk. now rewrite app_nil_r.
Qed.

Lemma filter_keptAs_nil k rows :
  k ∉ (fun e => ChildText e 1) <$> rows -> List.filter (keptAs k) rows = [].
Proof.
  induction rows as [|e rows IH]; [reflexivity|].
  rewrite fmap_cons, not_elem_of_cons. intros [Hne Hrest].
  simpl. unfold keptAs at 1.
  rewrite (bool_decide_eq_false_2 (ChildText e 1 = k)) by congruence.
  rewrite andb_false_r. auto.
Qed.

Lemma last_is_Some {A} (l : list A) : l <> [] -> is_Some (last l).
Proof.
  destruct l as [|x l] using rev_ind; [congruence|]. rewrite last_snoc. eauto.
Qed.

Lemma positive_kept e :
  0 < field (ChildText e 2) -> isHeader e = false -> kept e = true.
Proof.
  intros Hp Hh. unfold kept. rewrite Hh. unfold reading. simpl.
  destruct (Z.eqb_spec (field (ChildText e 2)) 0) as [E|E]; [lia|reflexivity].
Qed.

(** C4.  A row whose extracted power is zero, as it is when the power cell
    holds no digit, is discarded: the callback leaves the mapping unchanged,
    and the result for the whole table is the result without the row. *)
Theorem zero_power_row_discarded (e : HTMLElement) :
  field (ChildText e 2) = 0 \/ noDigit (ChildText e 2) = true ->
  field (ChildText e 2) = 0
  /\ (forall dataMap, onRow e dataMap = dataMap)
  /\ (forall rows1 rows2, collect (rows1 ++ e :: rows2) = collect (rows1 ++ rows2)).
Proof.
  intros H.
  assert (H0 : field (ChildText e 2) = 0).
  { destruct H as [H|H]; [exact H|now apply field_noDigit]. }
  assert (Hk : kept e = false).
  { unfold kept, reading. simpl. rewrite H0. apply andb_false_r. }
  split; [exact H0|split].
  - intros dataMap. now apply onRow_not_kept.
  - intros rows1 rows2. now apply collect_drop_row.
Qed.

Lemma zero_power_row_discarded_witness :
  field "0 W" = 0
  /\ (forall dataMap, onRow ["INV1"; "0 W"; ""; "230 V"; "35"; "d"] dataMap = dataMap)
  /\ (forall rows1 rows2,
        collect (rows1 ++ ["INV1"; "0 W"; ""; "230 V"; "35"; "d"] :: rows2)
        = collect (rows1 ++ rows2)).
Proof.
  apply (zero_power_row_discarded ["INV1"; "0 W"; ""; "230 V"; "35"; "d"]).
  left. reflexivity.
Defined.

(** C5.  A row whose first cell equals "Inverter ID" up to case is skipped
    as a header: the callback leaves the mapping unchanged, the result for
    the whole table is the result without the row, and no table has an
    entry under such a name. *)
Theorem header_row_skipped (e : HTMLElement) :
  EqualFold (ChildText e 1) "Inverter ID" = true ->
  (forall dataMap, onRow e dataMap = dataMap)
  /\ (forall rows1 rows2, collect (rows1 ++ e :: rows2) = collect (rows1 ++ rows2))
  /\ (forall rows, collect rows !! ChildText e 1 = None).
Proof.
  intros H.
  assert (Hk : kept e = false) by (unfold kept, isHeader; now rewrite H).
  split; [|split].
  - intros dataMap. now apply onRow_not_kept.
  - intros rows1 rows2. now apply collect_drop_row.
  - intros rows. rewrite collect_lookup.
    assert (Hnil : List.filter (keptAs (ChildText e 1)) rows = []); [|now rewrite Hnil].
    induction rows as [|e' rows IH]; [reflexivity|]. simpl. rewrite IH.
    unfold keptAs, kept, isHeader.
    destruct (bool_decide_reflect (ChildText e' 1 = ChildText e 1)) as [->|_].
    + now rewrite H.
    + now rewrite andb_false_r.
Qed.

Lemma header_row_skipped_witness :
  (forall dataMap,
     onRow ["INVERTER id"; "Power"; ""; "Voltage"; "Temp"; "Date"] dataMap = dataMap)
  /\ (forall rows1 rows2,
        collect (rows1 ++ ["INVERTER id"; "Power"; ""; "Voltage"; "Temp"; "Date"] :: rows2)
        = collect (rows1 ++ rows2))
  /\ (forall rows, collect rows !! "INVERTER id" = None).
Proof.
  apply (header_row_skipped ["INVERTER id"; "Power"; ""; "Voltage"; "Temp"; "Date"]).
  reflexivity.
Defined.

(** C6.  For a table whose rows all have an extracted power above zero,
    the mapping has an entry for exactly the identifiers of the rows (a
    header label is not one), one entry per identifier, and the entry of an
    identifier is the reading of the last row that carries it. *)
Theorem one_entry_per_identifier_last_wins (rows : list HTMLElement) :
  Forall (fun e => 0 < field (ChildText e 2)) rows ->
  dom (collect rows)
  = list_to_set ((fun e => ChildText e 1) <$> List.filter (fun e => negb (isHeader e)) rows)
  /\ NoDup (map_to_list (collect rows)).*1
  /\ (forall rows1 e rows2,
        rows = rows1 ++ e :: rows2 ->
        isHeader e = false ->
        ChildText e 1 ∉ (fun e => ChildText e 1) <$> rows2 ->
        collect rows !! ChildText e 1 = Some (reading e)).
Proof.
  intros Hall. split; [|split].
  - apply set_eq. intros k.
    rewrite elem_of_dom, collect_lookup, elem_of_list_to_set, list_elem_of_fmap.
    split.
    + intros [r Hr]. apply fmap_Some in Hr as (e & He & _).
      apply last_Some_elem_of, list_elem_of_In, List.filter_In in He as [Hin Hk].
      unfold keptAs, kept in Hk. apply andb_prop in Hk as [Hk Hid].
      apply andb_prop in Hk as [Hh _]. apply bool_decide_eq_true in Hid.
      exists e. split; [now symmetry|].
      apply list_elem_of_In, List.filter_In. auto.
    + intros (e & -> & Hin). apply fmap_is_Some, last_is_Some.
      apply list_elem_of_In, List.filter_In in Hin as [Hin Hh].
      apply negb_true_iff in Hh.
      intros Hnil.
      assert (Hf : In e (List.filter (keptAs (ChildText e 1)) rows)).
      { apply List.filter_In. split; [exact Hin|]. unfold keptAs.
        rewrite positive_kept, bool_decide_eq_true_2; [reflexivity..| |exact Hh].
        rewrite List.Forall_forall in Hall. auto. }
      rewrite Hnil in Hf. destruct Hf.
  - apply NoDup_fst_map_to_list.
  - intros rows1 e rows2 -> Hh Hlast. rewrite collect_lookup.
    rewrite List.filter_app. simpl List.filter.
    apply Forall_app in Hall as [_ Hall].
    apply Forall_cons in Hall as [He _].
    unfold keptAs at 2.
    rewrite (positive_kept _ He Hh), bool_decide_eq_true_2 by reflexivity.
    simpl. rewrite (filter_keptAs_nil _ _ Hlast).
    now rewrite last_snoc.
Qed.

Lemma one_entry_per_identifier_witness :
  let rows := [ ["Inverter ID"; "1"; ""; "Voltage"; "Temp"; "Date"]
              ; ["A"; "100 W"; ""; "230 V"; "30"; "t1"]
              ; ["B"; "150 W"; ""; "231 V"; "31"; "t1"]
              ; ["A"; "120 W"; ""; "229 V"; "32"; "t2"] ] in
  dom (collect rows)
  = list_to_set ((fun e => ChildText e 1) <$> List.filter (fun e => negb (isHeader e)) rows)
  /\ NoDup (map_to_list (collect rows)).*1
  /\ (forall rows1 e rows2,
        rows = rows1 ++ e :: rows2 ->
        isHeader e = false ->
        ChildText e 1 ∉ (fun e => ChildText e 1) <$> rows2 ->
        collect rows !! ChildText e 1 = Some (reading e)).
Proof.
  apply one_entry_per_identifier_last_wins.
  repeat constructor.
Defined.

(** The sample table of C6 evaluated: two entries, the later row of A wins. *)
Example last_row_wins_on_sample :
  collect [ ["A"; "100 W"; ""; "230 V"; "30"; "t1"]
          ; ["B"; "150 W"; ""; "231 V"; "31"; "t1"]
          ; ["A"; "120 W"; ""; "229 V"; "32"; "t2"] ]
  = {[ "A" := mkLiveData 120 229 32 "t2"; "B" := mkLiveData 150 231 31 "t1" ]}.
Proof. reflexivity. Qed.

(** ** Arithmetic on [int64] *)

Lemma wrap_inRange z : Int64.inRange z -> Int64.wrap z = z.
Proof.
  unfold Int64.inRange, Int64.min, Int64.max, Int64.wrap. intros H.
  rewrite Z.mod_small; lia.
Qed.

Lemma wrap_is_inRange z : Int64.inRange (Int64.wrap z).
Proof.
  unfold Int64.inRange, Int64.min, Int64.max, Int64.wrap.
  pose proof (Z.mod_pos_bound (z + 2 ^ 63) (2 ^ 64) ltac:(lia)). lia.
Qed.

Lemma add_wrap_l a b : Int64.add (Int64.wrap a) b = Int64.wrap (a + b).
Proof.
  unfold Int64.add, Int64.wrap. f_equal.
  replace ((a + 2 ^ 63) mod 2 ^ 64 - 2 ^ 63 + b + 2 ^ 63)
    with ((a + 2 ^ 63) mod 2 ^ 64 + b) by lia.
  rewrite Zplus_mod_idemp_l. f_equal. lia.
Qed.

Lemma fold_add_wrap {A} (f : A -> Z) (l : list A) (a : Z) :
  fold_left (fun t x => Int64.add t (f x)) l (Int64.wrap a)
  = Int64.wrap (a + foldr Z.add 0 (f <$> l)).
Proof.
  revert a. induction l as [|x l IH]; intros a.
  - simpl. f_equal. lia.
  - rewrite fmap_cons. simpl. rewrite add_wrap_l, IH. f_equal. lia.
Qed.

(** ** The merge loop *)

Section Merge.

Variable liveDataMap : gmap string LiveData.

(** The loop invariant: after [i] iterations the first [i] panels have
    grown, the others are untouched, and the total is the [int64] sum of
    the powers appended so far. *)
Lemma merge_invariant (panels : list Panel) (i : nat) :
  (i <= length panels)%nat ->
  fold_left (fun st j => step liveDataMap j st) (seq 0 i) (panels, 0)
  = ((grow liveDataMap <$> take i panels) ++ drop i panels,
     fold_left (fun t p => Int64.add t (CurrentPower (index liveDataMap (InverterID p))))
               (take i panels) 0).
Proof.
  induction i as [|i IH]; intros Hi.
  - simpl. now rewrite drop_0.
  - rewrite seq_S, fold_left_app, IH by lia. simpl.
    destruct (lookup_lt_is_Some_2 panels i ltac:(lia)) as [p Hp].
    assert (Hlen : length (grow liveDataMap <$> take i panels) = i).
    { rewrite length_fmap, length_take. lia. }
    rewrite lookup_app_r by lia. rewrite Hlen, Nat.sub_diag.
    rewrite (drop_S _ _ _ Hp). simpl.
    rewrite insert_app_r_alt by lia. rewrite Hlen, Nat.sub_diag. simpl.
    rewrite (take_S_r _ _ _ Hp), fmap_app, fold_left_app, <- app_assoc.
    reflexivity.
Qed.

Lemma merge_eq (panels : list Panel) :
  merge liveDataMap panels
  = (grow liveDataMap <$> panels,
     Int64.wrap (sumPower (appended <$> (grow liveDataMap <$> panels)))).
Proof.
  unfold merge. rewrite merge_invariant by lia.
  rewrite firstn_all, drop_all, app_nil_r. f_equal.
  change 0 with (Int64.wrap 0) at 1. rewrite fold_add_wrap. f_equal.
  unfold sumPower. rewrite <- !list_fmap_compose, Z.add_0_l. f_equal.
  apply list_fmap_ext. intros _ p _. unfold appended, grow. simpl.
  now rewrite List.last_last.
Qed.

End Merge.

(** ** Runs of [main] *)

(** A run completes exactly when the UV data is obtained and both files
    open; it then saves the grown panels and the extended summaries. *)
Lemma main_completes w solarData byteValue byteValue' :
  uv w = Return solarData ->
  panelFile (files w) = Some byteValue ->
  globalFile (files w) = Some byteValue' ->
  let liveDataMap := parseRealTime (page w) in
  let panels := grow liveDataMap <$> (Unmarshal byteValue).1 in
  let totalOutput := Int64.wrap (sumPower (appended <$> panels)) in
  let globalData :=
    mkGlobalData (now w) totalOutput
      (PrimFloat.mul
         (PrimFloat.div (float64 totalOutput)
                        (float64 (Int64.mul (Z.of_nat (length panels)) maxPower)))
         (float64 100))
      solarData in
  let globals := (Unmarshal byteValue').1 ++ [globalData] in
  main w = Return (mkDone panels globals
                     (mkFiles (Some (MarshalPanels panels).1) (Some (MarshalGlobals globals).1))).
Proof.
  intros Huv Hp Hg. unfold main, loadPanelsFromJSON, loadGlobalFromJSON.
  rewrite Huv, Hp, Hg. cbn [mbind Run_bind]. rewrite merge_eq. reflexivity.
Qed.

Lemma main_aborts w :
  (exists d, uv w = Abort d) \/ panelFile (files w) = None \/ globalFile (files w) = None ->
  exists d, main w = Abort d.
Proof.
  unfold main, loadPanelsFromJSON, loadGlobalFromJSON.
  intros [[d H]|[H|H]].
  - rewrite H. eauto.
  - rewrite H. destruct (uv w); cbn; eauto.
  - rewrite H. destruct (uv w); cbn; eauto.
    destruct (panelFile (files w)); cbn; eauto.
    destruct (merge _ _). cbn. eauto.
Qed.

(** C2.  In a run that reaches the merge (the UV data is obtained and both
    files open) every loaded panel gets exactly one reading appended, the
    live reading stored under its identifier when there is one and the zero
    reading otherwise; each history keeps its former entries in place and
    is one longer; and the summaries handed to [saveGlobal] are the loaded
    ones followed by exactly one new entry. *)
Theorem one_reading_and_one_summary_appended w solarData byteValue byteValue' :
  uv w = Return solarData ->
  panelFile (files w) = Some byteValue ->
  globalFile (files w) = Some byteValue' ->
  exists d globalData,
    main w = Return d
    /\ panels' d
       = (fun panel =>
            mkPanel (InverterID panel)
              (HistoricalData panel ++
                 [match parseRealTime (page w) !! InverterID panel with
                  | Some live => live
                  | None => zeroLiveData
                  end])) <$> (Unmarshal byteValue).1
    /\ Forall2 (fun panel panel' =>
                  InverterID panel' = InverterID panel
                  /\ length (HistoricalData panel') = S (length (HistoricalData panel))
                  /\ take (length (HistoricalData panel)) (HistoricalData panel')
                     = HistoricalData panel)
               (Unmarshal byteValue).1 (panels' d)
    /\ globals' d = (Unmarshal byteValue').1 ++ [globalData].
Proof.
  intros Huv Hp Hg. pose proof (main_completes w _ _ _ Huv Hp Hg) as Hmain.
  cbv zeta in Hmain. eexists _, _. split; [exact Hmain|]. simpl.
  split; [|split].
  - apply list_fmap_ext. intros _ panel _. unfold grow, index.
    now destruct (parseRealTime (page w) !! InverterID panel).
  - apply Forall2_fmap_r, Forall_Forall2_diag, Forall_forall. intros panel _.
    unfold grow. simpl. split; [reflexivity|split].
    + rewrite length_app. simpl. lia.
    + now rewrite take_app_length.
  - reflexivity.
Qed.

Lemma one_reading_and_one_summary_witness :
  exists d globalData,
    main twoPanels = Return d
    /\ panels' d
       = (fun panel =>
            mkPanel (InverterID panel)
              (HistoricalData panel ++
                 [match parseRealTime (page twoPanels) !! InverterID panel with
                  | Some live => live
                  | None => zeroLiveData
                  end])) <$> [mkPanel "INV1" [yesterday]; mkPanel "INV2" []]
    /\ Forall2 (fun panel panel' =>
                  InverterID panel' = InverterID panel
                  /\ length (HistoricalData panel') = S (length (HistoricalData panel))
                  /\ take (length (HistoricalData panel)) (HistoricalData panel')
                     = HistoricalData panel)
               [mkPanel "INV1" [yesterday]; mkPanel "INV2" []] (panels' d)
    /\ globals' d = [stored] ++ [globalData].
Proof.
  apply (one_reading_and_one_summary_appended twoPanels sunny
           (Text [mkPanel "INV1" [yesterday]; mkPanel "INV2" []]) (Text [stored]));
    reflexivity.
Defined.

(** C3 (as amended).  In a run that reaches the merge, the readings just
    appended are those the live mapping holds for the loaded panels (the
    zero reading where it holds none); the power of the new summary is the
    sum of their powers taken in [int64] arithmetic, which is the exact sum
    whenever that lies in the [int64] range; and its performance is, in
    binary64 arithmetic and without clamping, that power divided by the
    number of loaded panels times 250, times 100. *)
Theorem total_power_and_performance w solarData byteValue byteValue' :
  uv w = Return solarData ->
  panelFile (files w) = Some byteValue ->
  globalFile (files w) = Some byteValue' ->
  let loaded := (Unmarshal byteValue).1 in
  let live := fun panel =>
    default zeroLiveData (parseRealTime (page w) !! InverterID panel) in
  let total := sumPower (live <$> loaded) in
  let count := Z.of_nat (length loaded) in
  exists d globalData,
    main w = Return d
    /\ globals' d = (Unmarshal byteValue').1 ++ [globalData]
    /\ appended <$> panels' d = live <$> loaded
    /\ Power globalData = Int64.wrap total
    /\ (Int64.inRange total -> Power globalData = total)
    /\ Performance globalData
       = PrimFloat.mul
           (PrimFloat.div (float64 (Int64.wrap total)) (float64 (Int64.wrap (count * 250))))
           (float64 100)
    /\ (count * 250 <= Int64.max -> Int64.wrap (count * 250) = count * 250).
Proof.
  intros Huv Hp Hg loaded live total count.
  pose proof (main_completes w _ _ _ Huv Hp Hg) as Hmain.
  cbv zeta in Hmain. eexists _, _. split; [exact Hmain|].
  cbn [globals' panels' Power Performance].
  assert (Happ : appended <$> (grow (parseRealTime (page w)) <$> loaded) = live <$> loaded).
  { rewrite <- list_fmap_compose. apply list_fmap_ext. intros _ panel _.
    unfold appended, grow, index, live. simpl. now rewrite List.last_last. }
  fold loaded. rewrite Happ, length_fmap. fold total count.
  split; [reflexivity|]. split; [reflexivity|]. split; [reflexivity|].
  split; [apply wrap_inRange|]. split; [reflexivity|].
  intros H. apply wrap_inRange.
  unfold Int64.inRange, Int64.min, Int64.max, count in *. lia.
Qed.

Lemma total_power_and_performance_witness :
  exists d globalData,
    main twoPanels = Return d
    /\ globals' d = [stored] ++ [globalData]
    /\ appended <$> panels' d
       = [mkLiveData 100 230 35 "2024-01-01 10:00:00";
          mkLiveData 150 231 36 "2024-01-01 10:00:00"]
    /\ Power globalData = 250
    /\ (Int64.inRange 250 -> Power globalData = 250)
    /\ Performance globalData = 50%float
    /\ (2 * 250 <= Int64.max -> Int64.wrap (2 * 250) = 2 * 250).
Proof.
  apply (total_power_and_performance twoPanels sunny
           (Text [mkPanel "INV1" [yesterday]; mkPanel "INV2" []]) (Text [stored]));
    reflexivity.
Defined.

(** C3 (as stated) fails: the total is an [int64] and wraps around.  Two
    panels that each report 9223372036854775807 W get these readings
    appended, and the power of the summary is -2, not their sum. *)
Lemma total_power_wraps_around :
  exists d globalData,
    main (mkWorld (Page [ ["INV1"; "9223372036854775807 W"]
                        ; ["INV2"; "9223372036854775807 W"] ])
                  (Return sunny) "2024-01-01 10:00:05"
                  (mkFiles (Some (Text [mkPanel "INV1" []; mkPanel "INV2" []]))
                           (Some (Text []))))
    = Return d
    /\ last (globals' d) = Some globalData
    /\ CurrentPower <$> (appended <$> panels' d)
       = [9223372036854775807; 9223372036854775807]
    /\ sumPower (appended <$> panels' d) = 18446744073709551614
    /\ Power globalData = -2
    /\ Power globalData <> sumPower (appended <$> panels' d).
Proof.
  eexists _, _. split; [reflexivity|]. split; [reflexivity|].
  split; [reflexivity|]. split; [reflexivity|]. split; [reflexivity|].
  discriminate.
Qed.

(** The scenarios of the specification, on the code. *)
Example scenario_reading :
  collect [["INV1"; "1234 W"; ""; "230 V"; "35 °C"; "2024-01-01 10:00:00"]]
  = {["INV1" := mkLiveData 1234 230 35 "2024-01-01 10:00:00"]}.
Proof. reflexivity. Qed.

Example scenario_two_panels :
  exists d globalData,
    main twoPanels = Return d /\ last (globals' d) = Some globalData
    /\ Power globalData = 250 /\ Performance globalData = 50%float.
Proof. eexists _, _. repeat split; reflexivity. Qed.

(** The performance is not clamped: one panel reporting 500 W gives 200,
    one reporting -250 W gives -100. *)
Example performance_not_clamped :
  (exists d globalData,
     main (mkWorld (Page [["INV1"; "500 W"]]) (Return sunny) "now"
                   (mkFiles (Some (Text [mkPanel "INV1" []])) (Some (Text []))))
     = Return d
     /\ last (globals' d) = Some globalData /\ Performance globalData = 200%float)
  /\ (exists d globalData,
        main (mkWorld (Page [["INV1"; "-250 W"]]) (Return sunny) "now"
                      (mkFiles (Some (Text [mkPanel "INV1" []])) (Some (Text []))))
        = Return d
        /\ last (globals' d) = Some globalData /\ Performance globalData = (-100)%float).
Proof. split; eexists _, _; repeat split; reflexivity. Qed.

(** ** Readings of unknown inverters *)

Lemma collect_lookup_other rows1 e rows2 k :
  ChildText e 1 <> k ->
  collect (rows1 ++ e :: rows2) !! k = collect (rows1 ++ rows2) !! k.
Proof.
  intros Hne. rewrite !collect_lookup, !List.filter_app. simpl List.filter.
  unfold keptAs at 2. rewrite (bool_decide_eq_false_2 _ Hne), andb_false_r.
  reflexivity.
Qed.

Lemma grow_ext (m1 m2 : gmap string LiveData) (panels : list Panel) :
  (forall k, k ∈ InverterID <$> panels -> m1 !! k = m2 !! k) ->
  grow m1 <$> panels = grow m2 <$> panels.
Proof.
  intros H. apply list_fmap_ext. intros i p Hp. unfold grow, index.
  rewrite H; [reflexivity|].
  apply list_elem_of_fmap. exists p. split; [reflexivity|].
  eapply list_elem_of_lookup_2, Hp.
Qed.

Lemma written_identifiers (panels : list Panel) :
  InverterID <$> (writtenPanel <$> panels) = written <$> (InverterID <$> panels).
Proof. rewrite <- !list_fmap_compose. now apply list_fmap_ext. Qed.

Lemma written_unchanged (names : list string) :
  Forall (fun k => written k = k) names -> written <$> names = names.
Proof.
  induction 1 as [|k names Hk _ IH]; [reflexivity|]. now rewrite fmap_cons, Hk, IH.
Qed.

(** C10.  A run that reaches the save hands to [savePanels] a panel
    collection with the identifiers it loaded, in the same order, and the
    file it writes reads back with these identifiers, each as the encoder
    writes it (unchanged when it is well-formed UTF-8, as everything the
    decoder returns is); and a scraped row whose identifier belongs to no
    loaded panel leaves no trace: the run saves exactly what it would have
    saved had the row not been on the page. *)
Theorem unknown_inverter_reading_dropped w solarData byteValue byteValue' :
  uv w = Return solarData ->
  panelFile (files w) = Some byteValue ->
  globalFile (files w) = Some byteValue' ->
  exists d file,
    main w = Return d
    /\ InverterID <$> panels' d = InverterID <$> (Unmarshal byteValue).1
    /\ panelFile (files' d) = Some file
    /\ InverterID <$> (Unmarshal file).1 = written <$> (InverterID <$> (Unmarshal byteValue).1)
    /\ (Forall (fun k => written k = k) (InverterID <$> (Unmarshal byteValue).1) ->
        InverterID <$> (Unmarshal file).1 = InverterID <$> (Unmarshal byteValue).1)
    /\ (forall rows1 e rows2,
          page w = Page (rows1 ++ e :: rows2) ->
          ChildText e 1 ∉ InverterID <$> (Unmarshal byteValue).1 ->
          main (mkWorld (Page (rows1 ++ rows2)) (uv w) (now w) (files w)) = Return d).
Proof.
  intros Huv Hp Hg. pose proof (main_completes w _ _ _ Huv Hp Hg) as Hmain.
  cbv zeta in Hmain. eexists _, _. split; [exact Hmain|].
  cbn [panels' files' panelFile].
  assert (Hids : InverterID <$> (grow (parseRealTime (page w)) <$> (Unmarshal byteValue).1)
                 = InverterID <$> (Unmarshal byteValue).1).
  { rewrite <- list_fmap_compose. now apply list_fmap_ext. }
  split; [exact Hids|]. split; [reflexivity|].
  assert (Hread : InverterID <$> (Unmarshal
                     (MarshalPanels
                        (grow (parseRealTime (page w)) <$> (Unmarshal byteValue).1)).1).1
                  = written <$> (InverterID <$> (Unmarshal byteValue).1)).
  { unfold MarshalPanels. cbn [fst Unmarshal]. now rewrite written_identifiers, Hids. }
  split; [exact Hread|]. split.
  - intros Hvalid. rewrite Hread. now apply written_unchanged.
  - intros rows1 e rows2 Hpage Hnew.
    rewrite (main_completes _ solarData byteValue byteValue') by assumption.
    cbv zeta. cbn [page now]. rewrite Hpage. cbn [parseRealTime].
    rewrite (grow_ext (collect (rows1 ++ rows2)) (collect (rows1 ++ e :: rows2)));
      [reflexivity|].
    intros k Hk. symmetry. apply collect_lookup_other. congruence.
Qed.

Lemma unknown_inverter_reading_witness :
  exists d file,
    main twoPanels = Return d
    /\ InverterID <$> panels' d = ["INV1"; "INV2"]
    /\ panelFile (files' d) = Some file
    /\ InverterID <$> (Unmarshal file).1 = written <$> ["INV1"; "INV2"]
    /\ (Forall (fun k => written k = k) ["INV1"; "INV2"] ->
        InverterID <$> (Unmarshal file).1 = ["INV1"; "INV2"])
    /\ (forall rows1 e rows2,
          page twoPanels = Page (rows1 ++ e :: rows2) ->
          ChildText e 1 ∉ ["INV1"; "INV2"] ->
          main (mkWorld (Page (rows1 ++ rows2)) (uv twoPanels) (now twoPanels)
                        (files twoPanels)) = Return d).
Proof.
  apply (unknown_inverter_reading_dropped twoPanels sunny
           (Text [mkPanel "INV1" [yesterday]; mkPanel "INV2" []]) (Text [stored]));
    reflexivity.
Defined.

(** The row of INV9, an inverter without a panel, on the sample page. *)
Example unknown_inverter_on_sample_page :
  main (mkWorld (Page [ ["Inverter ID"; "Power"; ""; "Voltage"; "Temp"; "Date"]
                      ; ["INV1"; "100 W"; ""; "230 V"; "35 C"; "2024-01-01 10:00:00"]
                      ; ["INV2"; "150 W"; ""; "231 V"; "36 C"; "2024-01-01 10:00:00"] ])
                (uv twoPanels) (now twoPanels) (files twoPanels))
  = main twoPanels.
Proof. reflexivity. Qed.

(** ** Failures that do not stop a run *)

(** C8 on the code: when the page cannot be fetched the run does not
    abort.  [parseRealTime] returns the empty mapping, every panel gets a
    zero reading, a summary with power 0 is added and both files are
    rewritten. *)
Lemma fetch_failure_run_completes :
  parseRealTime (page unreachable) = ∅
  /\ main unreachable
     = Return
         (mkDone [mkPanel "INV1" [yesterday; zeroLiveData]]
            [stored; mkGlobalData "2024-01-01 10:00:05" 0 0 sunny]
            (mkFiles (Some (Text [mkPanel "INV1" [yesterday; zeroLiveData]]))
               (Some (Text [stored; mkGlobalData "2024-01-01 10:00:05" 0 0 sunny])))).
Proof. split; reflexivity. Qed.

(** C9 on the code: a file that cannot be opened aborts the run, but a
    file whose content [json.Unmarshal] rejects does not.  The loader
    returns what the decoder left, here nothing, and the run goes on: it
    rewrites [panels.json] with the empty collection. *)
Lemma malformed_file_run_completes :
  loadPanelsFromJSON (mkFiles None (Some (Text [stored]))) = Abort "opening panels file"
  /\ loadGlobalFromJSON (mkFiles (Some (Text [])) None) = Abort "opening global file"
  /\ loadPanelsFromJSON (files garbled) = Return []
  /\ loadGlobalFromJSON (mkFiles (Some (Text [])) (Some (Rejected []))) = Return []
  /\ exists d, main garbled = Return d /\ panels' d = []
               /\ panelFile (files' d) = Some (Text []).
Proof. repeat split. eexists. repeat split. Qed.

(** C7 on the code: with no panel the performance is 0/0, not a number,
    which has no JSON text; [saveGlobal] drops the encoder's error and
    writes the nil bytes, so reloading what was saved gives no entry at
    all instead of the two that were saved. *)
Lemma saved_summaries_not_reloaded :
  exists d nanData,
    main noPanels = Return d
    /\ globals' d = [stored; nanData]
    /\ Performance nanData = nan
    /\ MarshalGlobals (globals' d) = (Rejected [], true)
    /\ files' d = saveGlobal (globals' d) (savePanels (panels' d) (files noPanels))
    /\ loadGlobalFromJSON (files' d) = Return [].
Proof. eexists _, _. repeat split. Qed.

(** A run without UV data, or with a file that does not open, ends in an
    abort: nothing is saved. *)
Lemma main_aborts_witness :
  exists d,
    main (mkWorld (Page []) (Return sunny) "2024-01-01 10:00:05"
                  (mkFiles None (Some (Text [stored])))) = Abort d.
Proof.
  apply main_aborts. right. left. reflexivity.
Defined.

(** The range loop of [main] as a whole: every panel grows by the reading
    found under its identifier, the zero reading when there is none, and the
    total is the wrap-around sum of the appended powers. *)
Theorem merge_loop_appends_and_sums (liveDataMap : gmap string LiveData) (panels : list Panel) :
  (merge liveDataMap panels).1
  = (fun panel =>
       mkPanel (InverterID panel)
         (HistoricalData panel ++ [default zeroLiveData (liveDataMap !! InverterID panel)]))
    <$> panels
  /\ (merge liveDataMap panels).2
     = Int64.wrap (sumPower (appended <$> (merge liveDataMap panels).1)).
Proof.
  rewrite merge_eq. split; reflexivity.
Qed.

(** ** Numerals that do not parse *)

Ltac classes :=
  unfold joins, isDigit, isMinus, isComma, isDot, isBrace in *;
  repeat match goal with
         | |- context [(?x =? ?y)%N] => destruct (N.eqb_spec x y)
         | |- context [(?x <=? ?y)%N] => destruct (N.leb_spec x y)
         | H : context [(?x =? ?y)%N] |- _ => destruct (N.eqb_spec x y)
         | H : context [(?x <=? ?y)%N] |- _ => destruct (N.leb_spec x y)
         end;
  simpl in *; try congruence; try lia.

Lemma append_assoc (s t u : string) : (s +:+ t) +:+ u = s +:+ t +:+ u.
Proof.
  induction s as [|a s IH]; [reflexivity|]. now rewrite !append_cons, IH.
Qed.

Lemma length_append (u t : string) :
  String.length (u +:+ t) = (String.length u + String.length t)%nat.
Proof.
  induction u as [|a u IH]; [reflexivity|]. rewrite append_cons. simpl. now rewrite IH.
Qed.

Lemma digitVal_nonneg a : isDigit a = true -> 0 <= digitVal a.
Proof. unfold digitVal. classes. Qed.

Lemma parseDigits_nonneg s acc v : 0 <= acc -> parseDigits s acc = Some v -> 0 <= v.
Proof.
  revert acc. induction s as [|a s IH]; intros acc Hacc; simpl.
  - intros [= <-]. exact Hacc.
  - destruct (isDigit a) eqn:Ha; [|discriminate].
    apply IH. pose proof (digitVal_nonneg a Ha). lia.
Qed.

Lemma ParseUint_nonneg s v : ParseUint s = Some v -> 0 <= v.
Proof.
  destruct s as [|a s]; [discriminate|]. apply parseDigits_nonneg. lia.
Qed.

Lemma ParseInt_inRange s z : ParseInt s = Some z -> Int64.inRange z.
Proof.
  unfold Int64.inRange, Int64.min, Int64.max.
  destruct s as [|a s]; [discriminate|]. unfold ParseInt.
  destruct (ParseUint (if (code a =? 43)%N || isMinus a then s else String a s))
    as [un|] eqn:E; [|discriminate].
  apply ParseUint_nonneg in E.
  destruct (isMinus a).
  - destruct (Z.leb_spec un (2 ^ 63)); [|discriminate]. intros [= <-]. lia.
  - destruct (Z.ltb_spec un (2 ^ 63)); [|discriminate]. intros [= <-]. lia.
Qed.

Lemma field_inRange cell : Int64.inRange (field cell).
Proof.
  unfold field. destruct (ParseInt _) as [z|] eqn:E.
  - now apply ParseInt_inRange in E.
  - unfold Int64.inRange, Int64.min, Int64.max. simpl. lia.
Qed.

Lemma parseDigits_stops ds a t acc :
  allDigits ds = true -> isDigit a = false -> parseDigits (ds +:+ String a t) acc = None.
Proof.
  revert acc. induction ds as [|d ds IH]; intros acc Hds Ha.
  - rewrite append_empty_l. simpl. now rewrite Ha.
  - unfold allDigits in Hds. simpl in Hds. apply andb_prop in Hds as [Hd Hds].
    rewrite append_cons. simpl. rewrite Hd. now apply IH.
Qed.

Lemma ParseInt_plain_then body a t :
  plain body = true -> isDigit a = false -> ParseInt (body +:+ String a t) = None.
Proof.
  intros Hb Ha. destruct body as [|c body]; [discriminate|].
  simpl in Hb. rewrite append_cons. unfold ParseInt.
  destruct (isMinus c) eqn:Ec.
  - apply andb_prop in Hb as [Hh Hds]. rewrite orb_true_r.
    destruct body as [|d ds]; [discriminate|]. rewrite append_cons.
    unfold ParseUint. rewrite <- append_cons.
    now rewrite parseDigits_stops.
  - apply andb_prop in Hb as [Hd Hds].
    assert (Hplus : (code c =? 43)%N = false) by (clear -Hd; classes).
    rewrite Hplus. simpl orb. cbv iota. unfold ParseUint.
    rewrite <- append_cons. rewrite parseDigits_stops; [reflexivity| |exact Ha].
    unfold allDigits. simpl. now rewrite Hd.
Qed.

Lemma ParseInt_pretty_out (z : Z) : ~ Int64.inRange z -> ParseInt (pretty z) = None.
Proof.
  unfold Int64.inRange, Int64.min, Int64.max. intros Hz.
  destruct z as [|p|p]; [lia| |].
  - change (pretty (Z.pos p)) with (pretty_N_go (N.pos p) EmptyString).
    destruct (pretty_positive_digits p) as (Hh & _ & Hp).
    destruct (pretty_N_go (N.pos p) EmptyString) as [|a s] eqn:E; [discriminate|].
    simpl in Hh. unfold ParseInt. rewrite (digit_not_minus _ Hh).
    assert (Hplus : (code a =? 43)%N = false) by (clear -Hh; classes).
    rewrite Hplus. simpl orb. cbv iota. unfold ParseUint. rewrite Hp.
    destruct (Z.ltb_spec (Z.pos p) (2 ^ 63)); [lia|reflexivity].
  - change (pretty (Z.neg p)) with (String "-" (pretty_N_go (N.pos p) EmptyString)).
    destruct (pretty_positive_digits p) as (Hh & _ & Hp).
    unfold ParseInt. change (isMinus "-") with true. rewrite orb_true_r. cbv iota.
    unfold ParseUint.
    destruct (pretty_N_go (N.pos p) EmptyString) as [|a s] eqn:E; [discriminate|].
    rewrite Hp. destruct (Z.leb_spec (Z.pos p) (2 ^ 63)); [lia|reflexivity].
Qed.

(** A numeral beyond the range of [int64] makes [ParseInt] return a range
    error; the callback then leaves the field at zero, the clamped value
    that comes with the error is not used. *)
Theorem numeral_out_of_range_gives_zero pre post (z : Z) :
  ~ Int64.inRange z ->
  noDigit pre = true ->
  (0 <= z -> endsWithMinus pre = false) ->
  noDigit post = true ->
  headIs joins post = false ->
  field (pre +:+ pretty z +:+ post) = 0.
Proof.
  intros Hz Hpre Hend Hpost Hj. unfold field.
  rewrite FindAllString_run, (FindAllString_noDigit _ Hpost);
    [|unfold gap; rewrite Hpre, pretty_Z_head; simpl|apply pretty_Z_plain|exact Hj].
  - simpl Join. now rewrite append_empty_r, ParseInt_pretty_out.
  - destruct (Z.leb_spec 0 z); [rewrite Hend by lia; reflexivity|now rewrite andb_false_r].
Qed.

Lemma numeral_out_of_range_witness :
  field "9223372036854775808 W" = 0 /\ field "9223372036854775807 W" = 9223372036854775807.
Proof.
  split.
  - apply (numeral_out_of_range_gives_zero "" " W" 9223372036854775808);
      [unfold Int64.inRange, Int64.min, Int64.max; lia|reflexivity..].
  - reflexivity.
Defined.

(** The classes after the first digit can all match nothing, so matching
    them never fails. *)
Lemma nullable_total items :
  Forall (fun it => quant it <> One) items ->
  forall s, exists m r, matchHere items s = Some (m, r).
Proof.
  induction items as [|[c q] items IH]; intros Hall s.
  - eexists _, _. reflexivity.
  - apply Forall_cons in Hall as [Hq Hall]. simpl in Hq.
    specialize (IH Hall). destruct q; [congruence| |].
    + rewrite matchHere_ZeroOrOne. destruct s as [|a s]; [apply IH|].
      destruct (c a); [|apply IH].
      destruct (IH s) as (m & r & ->). simpl. eauto.
    + induction s as [|a s IHs]; rewrite matchHere_ZeroOrMore; [apply IH|].
      destruct (c a); [|apply IH].
      destruct IHs as (m & r & ->). simpl. eauto.
Qed.

(** What a successful match leaves behind: the text splits into the match
    and the rest, and the rest cannot begin with a comma, a point or a brace
    unless the match already holds one. *)
Lemma matchHere_star2 s m rest :
  matchHere (tl (tl (tl (tl re)))) s = Some (m, rest) ->
  s = m +:+ rest
  /\ headIs (fun a => isDigit a || isBrace a) rest = false
  /\ (m = EmptyString \/ hasSeparator m = true \/ headIs isDigit s = true).
Proof.
  unfold re; simpl tl. revert m rest.
  induction s as [|a s IH]; intros m rest; rewrite matchHere_ZeroOrMore.
  - intros [= <- <-]. auto.
  - destruct (isDigit a || isBrace a) eqn:Ec.
    + destruct (nullable_total (tl (tl (tl (tl re)))) ltac:(repeat constructor; discriminate) s)
        as (m' & r' & Hm).
      unfold re in Hm; simpl tl in Hm. rewrite Hm. simpl. intros [= <- <-].
      destruct (IH _ _ Hm) as (-> & Hr & Hcase).
      split; [reflexivity|]. split; [exact Hr|]. right.
      destruct (isDigit a) eqn:Ed; [now right|]. left. simpl in Ec.
      simpl. unfold isSeparator. rewrite Ec, orb_true_r. reflexivity.
    + simpl. intros [= <- <-]. simpl. rewrite Ec. auto.
Qed.

Lemma matchHere_dot s m rest :
  matchHere (tl (tl (tl re))) s = Some (m, rest) ->
  s = m +:+ rest
  /\ headIs (fun a => isDigit a || isBrace a) rest = false
  /\ (hasSeparator m = true \/ headIs isDigit s = true
      \/ (m = EmptyString /\ headIs isDot s = false)).
Proof.
  assert (Hsame : headIs isDot s = false ->
                  matchHere (tl (tl (tl (tl re)))) s = Some (m, rest) ->
                  s = m +:+ rest
                  /\ headIs (fun a => isDigit a || isBrace a) rest = false
                  /\ (hasSeparator m = true \/ headIs isDigit s = true
                      \/ (m = EmptyString /\ headIs isDot s = false))).
  { intros Hdot H. destruct (matchHere_star2 s m rest H) as (Hsplit & Hr & Hcase).
    split; [exact Hsplit|]. split; [exact Hr|].
    destruct Hcase as [Hm|[Hs|Hd]]; auto. }
  unfold re in *; simpl tl in *. rewrite matchHere_ZeroOrOne.
  destruct s as [|a s]; [now apply Hsame|].
  destruct (isDot a) eqn:Ea; [|now apply Hsame].
  destruct (nullable_total (tl (tl (tl (tl re)))) ltac:(repeat constructor; discriminate) s)
    as (m' & r' & Hm).
  destruct (matchHere_star2 s m' r' Hm) as (Hsplit & Hr & _).
  unfold re in Hm; simpl tl in Hm. rewrite Hm. simpl. intros [= <- <-].
  split; [now rewrite Hsplit|]. split; [exact Hr|]. left.
  simpl. unfold isSeparator. now rewrite Ea, orb_true_r.
Qed.

Lemma matchHere_star1 s m rest :
  matchHere (tl (tl re)) s = Some (m, rest) ->
  s = m +:+ rest /\ (hasSeparator m = true \/ headIs isSeparator rest = false).
Proof.
  unfold re; simpl tl. revert m rest.
  assert (Hstop : forall s m rest,
             headIs (fun a => isDigit a || isComma a) s = false ->
             matchHere (tl (tl (tl re))) s = Some (m, rest) ->
             s = m +:+ rest /\ (hasSeparator m = true \/ headIs isSeparator rest = false)).
  { intros t m0 r0 Hs H. destruct (matchHere_dot _ _ _ H) as (-> & Hr & Hcase).
    split; [reflexivity|]. destruct Hcase as [Hsep|[Hd|[-> Hdot]]]; [now left| |].
    - destruct (m0 +:+ r0) as [|a t]; [discriminate|]. simpl in *.
      rewrite Hd in Hs. discriminate.
    - right. rewrite append_empty_l in Hs, Hdot. destruct r0 as [|b r0]; [reflexivity|].
      simpl in *. unfold isSeparator.
      apply orb_false_elim in Hs as [_ ->]. apply orb_false_elim in Hr as [_ ->].
      now rewrite Hdot. }
  induction s as [|a s IH]; intros m rest; rewrite matchHere_ZeroOrMore.
  - intros H. apply (Hstop EmptyString); [reflexivity|exact H].
  - destruct (isDigit a || isComma a) eqn:Ec.
    + destruct (nullable_total (tl (tl re)) ltac:(repeat constructor; discriminate) s)
        as (m' & r' & Hm).
      unfold re in Hm; simpl tl in Hm. rewrite Hm. simpl. intros [= <- <-].
      destruct (IH _ _ Hm) as (-> & Hcase).
      split; [reflexivity|]. destruct Hcase as [Hsep|Hr]; [|now right].
      left. simpl. now rewrite Hsep, orb_true_r.
    + intros H. apply (Hstop (String a s)); [exact Ec|exact H].
Qed.

Lemma matchHere_re_result s m rest :
  matchHere re s = Some (m, rest) ->
  s = m +:+ rest /\ m <> EmptyString
  /\ (hasSeparator m = true \/ headIs isSeparator rest = false).
Proof.
  assert (Hone : forall s m rest,
             matchHere (tl re) s = Some (m, rest) ->
             s = m +:+ rest /\ m <> EmptyString
             /\ (hasSeparator m = true \/ headIs isSeparator rest = false)).
  { clear. intros s m rest. unfold re; simpl tl. rewrite matchHere_One.
    destruct s as [|a s]; [discriminate|]. destruct (isDigit a); [|discriminate].
    destruct (matchHere _ s) as [[m' r']|] eqn:Hm; [|discriminate].
    simpl. intros [= <- <-].
    destruct (matchHere_star1 s m' r' Hm) as (-> & Hcase).
    split; [reflexivity|]. split; [discriminate|].
    destruct Hcase as [Hsep|Hr]; [|now right]. left. simpl. now rewrite Hsep, orb_true_r. }
  unfold re. rewrite matchHere_ZeroOrOne.
  pose proof (Hone s m rest) as Hsame. unfold re in Hsame; simpl tl in Hsame.
  destruct s as [|a s]; [exact Hsame|].
  destruct (isMinus a); [|exact Hsame].
  destruct (matchHere _ s) as [[m' r']|] eqn:Hm; [|exact Hsame].
  simpl. intros [= <- <-].
  destruct (Hone s m' r' Hm) as (-> & _ & Hcase).
  split; [reflexivity|]. split; [discriminate|].
  destruct Hcase as [Hsep|Hr]; [|now right]. left. simpl. now rewrite Hsep, orb_true_r.
Qed.

Lemma matchHere_re_digit a s : isDigit a = true -> matchHere re (String a s) <> None.
Proof.
  intros Ha. unfold re. rewrite matchHere_ZeroOrOne, (digit_not_minus _ Ha).
  rewrite matchHere_One, Ha.
  destruct (nullable_total (tl (tl re)) ltac:(repeat constructor; discriminate) s)
    as (m & r & Hm).
  unfold re in Hm; simpl tl in Hm. now rewrite Hm.
Qed.

Lemma hasSeparator_append u t :
  hasSeparator (u +:+ t) = hasSeparator u || hasSeparator t.
Proof.
  induction u as [|a u IH]; [reflexivity|].
  rewrite append_cons. simpl. now rewrite IH, orb_assoc.
Qed.

Lemma digitThenSeparator_append m rest :
  digitThenSeparator (m +:+ rest) = true ->
  hasSeparator m = true \/ headIs isSeparator rest = true \/ digitThenSeparator rest = true.
Proof.
  induction m as [|a m IH]; [rewrite append_empty_l; auto|].
  rewrite append_cons. simpl. intros [H|H]%orb_prop.
  - apply andb_prop in H as [_ H]. destruct m as [|b m].
    + rewrite append_empty_l in H. auto.
    + rewrite append_cons in H. simpl in H. left. simpl. rewrite H.
      now rewrite orb_true_r.
  - destruct (IH H) as [Hm|Hr]; [|now right]. left. now rewrite Hm, orb_true_r.
Qed.

(** Where a digit is directly followed by a comma, a point or a brace, the
    joined matches hold such a character. *)
Lemma joined_matches_hold_separator s :
  digitThenSeparator s = true -> hasSeparator (Join (scanFrom s 0)) = true.
Proof.
  remember (String.length s) as n eqn:Hn.
  revert s Hn. induction (lt_wf n) as [n _ IH]. intros s -> Hs.
  destruct s as [|a s]; [discriminate|]. rewrite scanFrom_0.
  destruct (matchHere re (String a s)) as [[m rest]|] eqn:Hm.
  - destruct (matchHere_re_result _ _ _ Hm) as (Hsplit & Hne & Hcase).
    destruct m as [|a' m]; [congruence|]. rewrite append_cons in Hsplit.
    injection Hsplit as <- ->. simpl String.length. simpl Nat.pred.
    rewrite scanFrom_skip. simpl Join. rewrite hasSeparator_append.
    destruct (hasSeparator (String a m)) eqn:Hsep; [reflexivity|].
    destruct Hcase as [|Hrest]; [discriminate|].
    rewrite <- append_cons in Hs.
    destruct (digitThenSeparator_append _ _ Hs) as [H|[H|H]]; [congruence..|].
    simpl. apply (IH (String.length rest)); [|reflexivity|exact H].
    simpl. rewrite length_append. lia.
  - simpl in Hs. apply orb_prop in Hs as [Hs|Hs].
    + apply andb_prop in Hs as [Ha _]. now destruct (matchHere_re_digit a s Ha).
    + apply (IH (String.length s)); [simpl; lia|reflexivity|exact Hs].
Qed.

Lemma parseDigits_allDigits s acc v : parseDigits s acc = Some v -> allDigits s = true.
Proof.
  revert acc. induction s as [|a s IH]; intros acc; [reflexivity|]. simpl.
  destruct (isDigit a) eqn:Ha; [|discriminate]. intros H.
  unfold allDigits in *. simpl. rewrite Ha. exact (IH _ H).
Qed.

Lemma allDigits_no_separator s : allDigits s = true -> hasSeparator s = false.
Proof.
  induction s as [|a s IH]; [reflexivity|]. unfold allDigits. simpl.
  intros [Ha Hs]%andb_prop. rewrite (IH Hs), orb_false_r. clear -Ha.
  unfold isSeparator. classes.
Qed.

Lemma ParseInt_separator s : hasSeparator s = true -> ParseInt s = None.
Proof.
  intros Hs. destruct (ParseInt s) as [z|] eqn:E; [|reflexivity].
  destruct s as [|a s]; [discriminate|]. unfold ParseInt in E.
  destruct (ParseUint _) as [un|] eqn:Eu; [|discriminate].
  assert (Hall : hasSeparator (if (code a =? 43)%N || isMinus a then s else String a s) = false).
  { destruct (if (code a =? 43)%N || isMinus a then s else String a s) as [|b t] eqn:Eb;
      [reflexivity|].
    unfold ParseUint in Eu. apply parseDigits_allDigits in Eu.
    now apply allDigits_no_separator. }
  destruct ((code a =? 43)%N || isMinus a) eqn:Esign.
  - simpl in Hs. rewrite Hall, orb_false_r in Hs. clear -Hs Esign.
    unfold isSeparator in Hs. classes.
  - congruence.
Qed.

(** A cell in which some digit is directly followed by a comma, a decimal
    point or a brace gives zero, whatever else the cell holds: the
    character ends up in the joined matches, which are then no integer for
    [ParseInt]. *)
Theorem digit_before_separator_gives_zero (cell : string) :
  digitThenSeparator cell = true -> field cell = 0.
Proof.
  intros H. unfold field, FindAllString.
  now rewrite ParseInt_separator by now apply joined_matches_hold_separator.
Qed.

Lemma digit_before_separator_witness :
  field "1,234 W" = 0 /\ field "35.5 C" = 0 /\ field "5 1,2" = 0 /\ field "x-7.0 {2}" = 0.
Proof.
  split; [|split; [|split]].
  - exact (digit_before_separator_gives_zero "1,234 W" eq_refl).
  - exact (digit_before_separator_gives_zero "35.5 C" eq_refl).
  - exact (digit_before_separator_gives_zero "5 1,2" eq_refl).
  - exact (digit_before_separator_gives_zero "x-7.0 {2}" eq_refl).
Defined.

(** ** What the mapping holds *)

Lemma filter_filter_implied {A} (f g : A -> bool) (l : list A) :
  (forall x, f x = true -> g x = true) ->
  List.filter f (List.filter g l) = List.filter f l.
Proof.
  intros H. induction l as [|x l IH]; [reflexivity|]. simpl.
  destruct (g x) eqn:Eg; simpl.
  - now rewrite IH.
  - destruct (f x) eqn:Ef; [|exact IH]. apply H in Ef. congruence.
Qed.

Lemma keptAs_kept k e : keptAs k e = true -> kept e = true.
Proof. unfold keptAs. now intros [H _]%andb_prop. Qed.

(** Every entry of the mapping is the reading of a row of the table that
    is no header and has a power other than zero, stored under the row's
    first cell; its numeric fields are [int64] values and its date is the
    sixth cell.  The mapping never holds a zero-power reading. *)
Theorem entries_come_from_kept_rows (rows : list HTMLElement) (k : string) (r : LiveData) :
  collect rows !! k = Some r ->
  exists e,
    e ∈ rows /\ ChildText e 1 = k /\ isHeader e = false
    /\ r = mkLiveData (field (ChildText e 2)) (field (ChildText e 4))
                      (field (ChildText e 5)) (ChildText e 6)
    /\ CurrentPower r <> 0
    /\ Int64.inRange (CurrentPower r) /\ Int64.inRange (Voltage r)
    /\ Int64.inRange (Temperature r).
Proof.
  rewrite collect_lookup. intros (e & He & ->)%fmap_Some.
  apply last_Some_elem_of, list_elem_of_In, List.filter_In in He as [Hin Hk].
  unfold keptAs, kept in Hk. apply andb_prop in Hk as [Hk Hid].
  apply andb_prop in Hk as [Hh Hp]. apply bool_decide_eq_true in Hid.
  apply negb_true_iff in Hh, Hp. apply Z.eqb_neq in Hp.
  exists e. repeat split; try assumption; try apply field_inRange.
  now apply list_elem_of_In.
Qed.

Lemma entries_come_from_kept_rows_witness :
  exists e,
    e ∈ [["INV1"; "0 W"; ""; "230 V"; "35 C"; "t0"]; ["INV1"; "100 W"; ""; "x"; "-3 C"; "t1"]]
    /\ ChildText e 1 = "INV1" /\ isHeader e = false
    /\ mkLiveData 100 0 (-3) "t1"
       = mkLiveData (field (ChildText e 2)) (field (ChildText e 4))
                    (field (ChildText e 5)) (ChildText e 6)
    /\ CurrentPower (mkLiveData 100 0 (-3) "t1") <> 0
    /\ Int64.inRange (CurrentPower (mkLiveData 100 0 (-3) "t1"))
    /\ Int64.inRange (Voltage (mkLiveData 100 0 (-3) "t1"))
    /\ Int64.inRange (Temperature (mkLiveData 100 0 (-3) "t1")).
Proof.
  apply (entries_come_from_kept_rows
           [["INV1"; "0 W"; ""; "230 V"; "35 C"; "t0"]; ["INV1"; "100 W"; ""; "x"; "-3 C"; "t1"]]
           "INV1" (mkLiveData 100 0 (-3) "t1")).
  reflexivity.
Defined.

(** Header rows and zero-power rows can be struck from the table, wherever
    they stand, without changing the mapping. *)
Theorem skipped_rows_are_immaterial (rows : list HTMLElement) :
  collect (List.filter kept rows) = collect rows.
Proof.
  apply map_eq. intros k. rewrite !collect_lookup.
  now rewrite (filter_filter_implied _ _ _ (keptAs_kept k)).
Qed.

Lemma filter_Permutation {A} (f : A -> bool) (l l' : list A) :
  l ≡ₚ l' -> List.filter f l ≡ₚ List.filter f l'.
Proof.
  induction 1 as [|x l l' _ IH|x y l|l l' l'' _ IH1 _ IH2]; simpl.
  - reflexivity.
  - destruct (f x); [now constructor|exact IH].
  - destruct (f x), (f y); try reflexivity. constructor.
  - now rewrite IH1.
Qed.

Lemma filter_by_name_short (k : string) (l : list HTMLElement) :
  NoDup ((fun e => ChildText e 1) <$> l) ->
  (length (List.filter (fun e => bool_decide (ChildText e 1 = k)) l) <= 1)%nat.
Proof.
  induction l as [|e l IH]; [simpl; lia|].
  rewrite fmap_cons, NoDup_cons. intros [Hnew Hnd]. simpl.
  destruct (bool_decide_reflect (ChildText e 1 = k)) as [Hk|_]; [|auto].
  assert (Hnil : List.filter (fun e => bool_decide (ChildText e 1 = k)) l = []).
  { clear -Hnew Hk. induction l as [|e' l IH]; [reflexivity|].
    rewrite fmap_cons, not_elem_of_cons in Hnew. destruct Hnew as [Hne Hnew].
    simpl. rewrite bool_decide_eq_false_2 by congruence. auto. }
  rewrite Hnil. simpl. lia.
Qed.

Lemma short_Permutation_eq {A} (l l' : list A) :
  (length l <= 1)%nat -> l ≡ₚ l' -> l = l'.
Proof.
  intros Hlen Hp. destruct l as [|x [|y l]]; [| |simpl in Hlen; lia].
  - now apply Permutation_nil_l in Hp.
  - now apply Permutation_singleton_l in Hp.
Qed.

(** The order of the rows matters only among rows of one identifier: when
    the kept rows carry pairwise different identifiers, any reordering of
    the table gives the same mapping. *)
Theorem row_order_is_immaterial (rows rows' : list HTMLElement) :
  rows ≡ₚ rows' ->
  NoDup ((fun e => ChildText e 1) <$> List.filter kept rows) ->
  collect rows = collect rows'.
Proof.
  intros Hp Hnd. apply map_eq. intros k. rewrite !collect_lookup.
  rewrite <- (filter_filter_implied _ _ rows (keptAs_kept k)).
  rewrite <- (filter_filter_implied _ _ rows' (keptAs_kept k)).
  assert (Hsame : forall l,
    List.filter (keptAs k) (List.filter kept l)
    = List.filter (fun e => bool_decide (ChildText e 1 = k)) (List.filter kept l)).
  { intros l. apply List.filter_ext_in. intros e [_ He]%List.filter_In.
    unfold keptAs. now rewrite He. }
  rewrite !Hsame. f_equal. f_equal. apply short_Permutation_eq.
  - now apply filter_by_name_short.
  - now apply filter_Permutation, filter_Permutation.
Qed.

Lemma row_order_is_immaterial_witness :
  collect [["B"; "150 W"]; ["A"; "100 W"]; ["Inverter ID"; "Power"]]
  = collect [["A"; "100 W"]; ["B"; "150 W"]; ["Inverter ID"; "Power"]].
Proof.
  apply row_order_is_immaterial.
  - apply perm_swap.
  - apply (bool_decide_unpack _). vm_compute. exact I.
Defined.

(** ** The UV data *)

Ltac asserted :=
  match goal with
  | |- context [assertObject (?m !! ?k)] =>
      destruct (m !! k) as [[| | | | |?]|] eqn:?; simpl; try discriminate
  | |- context [assertFloat (?m !! ?k)] =>
      destruct (m !! k) as [[| |?| | |]|] eqn:?; simpl; try discriminate
  | |- context [assertString (?m !! ?k)] =>
      destruct (m !! k) as [[| | |?| |]|] eqn:?; simpl; try discriminate
  end.

(** The UV step yields solar data exactly when the request succeeds, the
    body is read and decodes to an object that holds, under [result], the
    numbers [uv] and [uv_max], the string [uv_max_time] and, under
    [sun_info] and [sun_position], the numbers [altitude] and [azimuth];
    these are then the fields of the data.  In every other case (a failed
    request, a body that is not a JSON object, a missing key, a null, a
    value of another type) the step aborts. *)
Theorem solar_data_exactly_from_complete_payload (r : Response) (s : SolarData) :
  solarOf r = Return s <->
  exists data result sunInfo sunPosition,
    r = Body (Some data)
    /\ data !! "result" = Some (Object result)
    /\ result !! "uv" = Some (Number (Uvi s))
    /\ result !! "uv_max" = Some (Number (UvMax s))
    /\ result !! "uv_max_time" = Some (Str (UvMaxTime s))
    /\ result !! "sun_info" = Some (Object sunInfo)
    /\ sunInfo !! "sun_position" = Some (Object sunPosition)
    /\ sunPosition !! "altitude" = Some (Number (SunAltitude s))
    /\ sunPosition !! "azimuth" = Some (Number (SunAzimuth s)).
Proof.
  split.
  - unfold solarOf. destruct r as [| |[data|]]; simpl; try discriminate.
    unfold makeSolarData. repeat asserted. intros [= <-]. simpl.
    eexists _, _, _, _. repeat split; eassumption.
  - intros (data & result & sunInfo & sunPosition & -> & H1 & H2 & H3 & H4 & H5 & H6 & H7 & H8).
    unfold solarOf, makeSolarData. simpl.
    rewrite H1. simpl. rewrite H2. simpl. rewrite H3. simpl. rewrite H4. simpl.
    rewrite H5. simpl. rewrite H6. simpl. rewrite H7. simpl. rewrite H8. simpl.
    now destruct s.
Qed.

(** ** Runs of [main], continued *)

(** A run completes exactly when the UV data is obtained and both files
    open; otherwise it aborts, and it does so ahead of the two saves. *)
Theorem main_completes_iff (w : World) :
  (exists d, main w = Return d)
  <-> (exists solarData, uv w = Return solarData)
      /\ is_Some (panelFile (files w)) /\ is_Some (globalFile (files w)).
Proof.
  split.
  - intros [d Hd].
    destruct (uv w) as [m|solarData] eqn:Huv.
    { destruct (main_aborts w) as [d' Hd']; [left; eauto|congruence]. }
    destruct (panelFile (files w)) as [b|] eqn:Hp.
    2:{ destruct (main_aborts w) as [d' Hd']; [right; left; exact Hp|congruence]. }
    destruct (globalFile (files w)) as [gb|] eqn:Hg.
    2:{ destruct (main_aborts w) as [d' Hd']; [right; right; exact Hg|congruence]. }
    eauto.
  - intros ([solarData Huv] & [b Hp] & [gb Hg]).
    eexists. exact (main_completes w _ _ _ Huv Hp Hg).
Qed.

Lemma collect_nonzero rows k r : collect rows !! k = Some r -> CurrentPower r <> 0.
Proof.
  rewrite collect_lookup. intros (e & He & ->)%fmap_Some.
  apply last_Some_elem_of, list_elem_of_In, List.filter_In in He as [_ Hk].
  apply keptAs_kept in Hk. unfold kept in Hk. apply andb_prop in Hk as [_ Hp].
  now apply negb_true_iff, Z.eqb_neq in Hp.
Qed.

Lemma parseRealTime_nonzero v k r : parseRealTime v !! k = Some r -> CurrentPower r <> 0.
Proof.
  destruct v as [|rows]; simpl.
  - now rewrite lookup_empty.
  - apply collect_nonzero.
Qed.

(** In a completed run the reading appended to a panel has power zero
    exactly when the mapping has no entry for the panel: a panel that is
    missing from the page, one whose row was dropped for a zero or
    unreadable power, and a page that could not be fetched all leave the
    same all-zero reading. *)
Theorem zero_reading_iff_no_entry w solarData byteValue byteValue' :
  uv w = Return solarData ->
  panelFile (files w) = Some byteValue ->
  globalFile (files w) = Some byteValue' ->
  exists d,
    main w = Return d
    /\ Forall2 (fun panel panel' =>
                  (CurrentPower (appended panel') = 0
                   <-> parseRealTime (page w) !! InverterID panel = None)
                  /\ (parseRealTime (page w) !! InverterID panel = None
                      -> appended panel' = zeroLiveData))
               (Unmarshal byteValue).1 (panels' d).
Proof.
  intros Huv Hp Hg. pose proof (main_completes w _ _ _ Huv Hp Hg) as Hmain.
  cbv zeta in Hmain. eexists. split; [exact Hmain|]. simpl.
  apply Forall2_fmap_r, Forall_Forall2_diag, Forall_forall. intros panel _.
  unfold appended, grow. simpl. rewrite List.last_last. unfold index.
  destruct (parseRealTime (page w) !! InverterID panel) as [r|] eqn:E; simpl.
  - apply parseRealTime_nonzero in E. split; [split|]; congruence.
  - split; [split|]; reflexivity.
Qed.

Lemma zero_reading_iff_no_entry_witness :
  exists d,
    main unreachable = Return d
    /\ Forall2 (fun panel panel' =>
                  (CurrentPower (appended panel') = 0
                   <-> parseRealTime (page unreachable) !! InverterID panel = None)
                  /\ (parseRealTime (page unreachable) !! InverterID panel = None
                      -> appended panel' = zeroLiveData))
               [mkPanel "INV1" [yesterday]] (panels' d).
Proof.
  apply (zero_reading_iff_no_entry unreachable sunny
           (Text [mkPanel "INV1" [yesterday]]) (Text [stored])); reflexivity.
Defined.

Lemma MarshalGlobals_last_bad (l : list GlobalData) (g : GlobalData) :
  encodable g = false -> MarshalGlobals (l ++ [g]) = (Rejected [], true).
Proof.
  intros H. unfold MarshalGlobals. rewrite forallb_app. simpl.
  now rewrite H, andb_false_r.
Qed.

(** When the panel file yields no panel (the empty array, or content the
    decoder rejects from the start) a completed run computes the
    performance 0/0, which is not a number; the summaries then cannot be
    encoded, [saveGlobal] writes the nil bytes, and the summaries stored
    before are gone: reloading the file gives the empty sequence. *)
Theorem no_panel_run_empties_global_file w solarData byteValue byteValue' :
  uv w = Return solarData ->
  panelFile (files w) = Some byteValue ->
  (Unmarshal byteValue).1 = [] ->
  globalFile (files w) = Some byteValue' ->
  exists d globalData,
    main w = Return d
    /\ last (globals' d) = Some globalData
    /\ Power globalData = 0 /\ Performance globalData = nan
    /\ globalFile (files' d) = Some (Rejected [])
    /\ loadGlobalFromJSON (files' d) = Return [].
Proof.
  intros Huv Hp Hnil Hg. pose proof (main_completes w _ _ _ Huv Hp Hg) as Hmain.
  cbv zeta in Hmain. rewrite Hnil in Hmain.
  eexists _, _. split; [exact Hmain|]. cbn [globals' files' globalFile].
  split; [apply last_snoc|]. split; [reflexivity|]. split; [reflexivity|].
  unfold loadGlobalFromJSON. cbn [globalFile].
  rewrite MarshalGlobals_last_bad by reflexivity. split; reflexivity.
Qed.

Lemma no_panel_run_witness :
  exists d globalData,
    main noPanels = Return d
    /\ last (globals' d) = Some globalData
    /\ Power globalData = 0 /\ Performance globalData = nan
    /\ globalFile (files' d) = Some (Rejected [])
    /\ loadGlobalFromJSON (files' d) = Return [].
Proof.
  apply (no_panel_run_empties_global_file noPanels sunny (Text []) (Text [stored]));
    reflexivity.
Defined.


(** ** Strings as they are read back *)

Lemma continues_prefix ranges s :
  continues ranges s = true ->
  exists u t, s = u +:+ t /\ String.length u = length ranges
              /\ forall t', continues ranges (u +:+ t') = true.
Proof.
  revert s. induction ranges as [|[lo hi] ranges IH]; intros s H.
  - exists EmptyString, s. repeat split.
  - destruct s as [|b s]; [discriminate|]. simpl in H.
    apply andb_prop in H as [Hb H].
    destruct (IH s H) as (u & t & -> & Hlen & Hall).
    exists (String b u), t. split; [reflexivity|]. split; [simpl; now rewrite Hlen|].
    intros t'. rewrite append_cons. simpl. now rewrite Hb, Hall.
Qed.

Lemma sized_prefix n ranges s m :
  sized n ranges s = Some m ->
  m = n /\ exists u t, s = u +:+ t /\ String.length u = length ranges
                       /\ forall t', sized n ranges (u +:+ t') = Some n.
Proof.
  unfold sized. destruct (continues ranges s) eqn:E; [|discriminate].
  intros [= <-]. split; [reflexivity|].
  destruct (continues_prefix _ _ E) as (u & t & -> & Hlen & Hall).
  exists u, t. repeat split; [exact Hlen|]. intros t'. now rewrite Hall.
Qed.

(** A well-formed sequence is decided by its own bytes. *)
Lemma runeLen_prefix s n :
  runeLen s = Some n ->
  exists a u t, s = String a (u +:+ t) /\ n = S (String.length u)
                /\ forall t', runeLen (String a (u +:+ t')) = Some n.
Proof.
  destruct s as [|a s]; [discriminate|]. unfold runeLen.
  destruct (code a <? 128)%N eqn:E0.
  { intros [= <-]. exists a, EmptyString, s.
    split; [reflexivity|]. split; [reflexivity|].
    intros t'. rewrite append_empty_l. unfold runeLen. now rewrite E0. }
  repeat match goal with
         | |- (if ?c then _ else _) = _ -> _ => destruct c eqn:?
         end;
    try discriminate;
    intros (-> & u & t & -> & Hlen & Hall)%sized_prefix;
    exists a, u, t; (split; [reflexivity|]); (split; [now rewrite Hlen|]);
    intros t'; rewrite E0;
    repeat match goal with
           | H : between _ _ _ = _ |- _ => rewrite H; clear H
           end;
    apply Hall.
Qed.

Lemma writtenFrom_copy u t :
  writtenFrom (u +:+ t) (String.length u) = u +:+ writtenFrom t 0.
Proof.
  induction u as [|a u IH]; [reflexivity|].
  rewrite !append_cons. simpl. now rewrite IH.
Qed.

Lemma written_cons a s :
  written (String a s) =
  match runeLen (String a s) with
  | Some n => String a (writtenFrom s (Nat.pred n))
  | None => replacement (written s)
  end.
Proof. reflexivity. Qed.

Lemma written_sequence a u t :
  runeLen (String a (u +:+ t)) = Some (S (String.length u)) ->
  written (String a (u +:+ t)) = String a (u +:+ written t).
Proof.
  intros H. rewrite written_cons, H. simpl Nat.pred. now rewrite writtenFrom_copy.
Qed.

Lemma written_replacement t : written (replacement t) = replacement (written t).
Proof. reflexivity. Qed.

(** Writing what was read back changes nothing more: a written string is
    well-formed. *)
Lemma written_written s : written (written s) = written s.
Proof.
  remember (String.length s) as n eqn:Hn.
  revert s Hn. induction (lt_wf n) as [n _ IH]. intros s ->.
  destruct s as [|a s]; [reflexivity|].
  rewrite written_cons. destruct (runeLen (String a s)) as [m|] eqn:E.
  - destruct (runeLen_prefix _ _ E) as (a' & u & t & [= <- ->] & -> & Hall).
    simpl Nat.pred. rewrite writtenFrom_copy.
    rewrite written_sequence by apply Hall. f_equal. f_equal.
    apply (IH (String.length t)); [|reflexivity].
    simpl. rewrite length_append. lia.
  - rewrite written_replacement. f_equal.
    apply (IH (String.length s)); [simpl; lia|reflexivity].
Qed.

Lemma writtenLiveData_twice r : writtenLiveData (writtenLiveData r) = writtenLiveData r.
Proof. unfold writtenLiveData. simpl. now rewrite written_written. Qed.

Lemma writtenPanel_twice p : writtenPanel (writtenPanel p) = writtenPanel p.
Proof.
  unfold writtenPanel. simpl. rewrite written_written. f_equal.
  rewrite <- list_fmap_compose. apply list_fmap_ext. intros _ r _.
  apply writtenLiveData_twice.
Qed.

(** ** The run and the files *)

Lemma mainOnFiles_main w :
  mainOnFiles (page w) (uv w) (now w) (files w)
  = match main w with
    | Return d => (Return (panels' d, globals' d), files' d)
    | Abort m => (Abort m, files w)
    end.
Proof.
  unfold mainOnFiles, main, loadPanels, loadGlobal, writePanels, writeGlobal, pure.
  unfold mbind, mret, Effect_bind, Effect_ret, Run_bind. cbv beta.
  destruct (uv w) as [m|solarData]; [reflexivity|]. cbv beta iota.
  destruct (loadPanelsFromJSON (files w)) as [m|panels]; [reflexivity|]. cbv beta iota.
  destruct (merge (parseRealTime (page w)) panels) as [panels1 totalOutput].
  cbv beta iota.
  destruct (loadGlobalFromJSON (files w)) as [m|globals]; reflexivity.
Qed.

(** A run either aborts, and then both files are exactly as they were (this
    happens when the UV data is missing or a file does not open), or it
    completes, and then [panels.json] and [global.json] have been rewritten,
    in this order, with the sequences [main] computes. *)
Theorem run_rewrites_both_files_or_none page uv now fs :
  (exists m,
     mainOnFiles page uv now fs = (Abort m, fs)
     /\ main (mkWorld page uv now fs) = Abort m
     /\ ((exists m', uv = Abort m') \/ panelFile fs = None \/ globalFile fs = None))
  \/ (exists panels globals,
        mainOnFiles page uv now fs
        = (Return (panels, globals), saveGlobal globals (savePanels panels fs))
        /\ main (mkWorld page uv now fs)
           = Return (mkDone panels globals (saveGlobal globals (savePanels panels fs)))).
Proof.
  pose proof (mainOnFiles_main (mkWorld page uv now fs)) as Hlink. simpl in Hlink.
  destruct uv as [m|solarData] eqn:Huv.
  { left. exists m. rewrite Hlink. repeat split. left. eauto. }
  destruct (panelFile fs) as [byteValue|] eqn:Hp.
  2:{ left. destruct (main_aborts (mkWorld page (Return solarData) now fs)) as [m Hm];
        [right; left; exact Hp|].
      exists m. rewrite Hlink, Hm. repeat split. right. now left. }
  destruct (globalFile fs) as [byteValue'|] eqn:Hg.
  2:{ left. destruct (main_aborts (mkWorld page (Return solarData) now fs)) as [m Hm];
        [right; right; exact Hg|].
      exists m. rewrite Hlink, Hm. repeat split. right. now right. }
  right.
  pose proof (main_completes (mkWorld page (Return solarData) now fs) solarData
                byteValue byteValue' eq_refl Hp Hg) as Hmain.
  cbv zeta in Hmain. rewrite Hlink, Hmain. eexists _, _. split; reflexivity.
Qed.

(** ** Successive invocations *)

Lemma grew_refl (p : Panel) : grew 0 p p.
Proof. split; [reflexivity|]. exists []. now rewrite app_nil_r. Qed.

Lemma grew_after_written_grow (m : gmap string LiveData) (n : nat) (p p' : Panel) :
  writtenPanel p = p ->
  grew n (writtenPanel (grow m p)) p' -> grew (S n) p p'.
Proof.
  unfold writtenPanel. destruct p as [k history]. simpl. intros [= Hk Hh].
  intros [Hid (added & Hadd & Hlen)]. simpl in Hid, Hadd.
  rewrite Hk in Hid. rewrite fmap_app, Hh in Hadd.
  split; [exact Hid|].
  exists ((writtenLiveData <$> [index m k]) ++ added). simpl.
  rewrite Hadd, <- app_assoc. split; [reflexivity|]. simpl. now rewrite Hlen.
Qed.

Lemma Forall2_impl_Forall {A B} (P : A -> Prop) (R S : A -> B -> Prop) l k :
  Forall P l -> Forall2 R l k -> (forall x y, P x -> R x y -> S x y) -> Forall2 S l k.
Proof.
  intros HP HR Himp. induction HR as [|x y l k Hxy _ IH]; [constructor|].
  apply Forall_cons in HP as [Hx HP]. constructor; auto.
Qed.

Lemma after_answered fs i solarData byteValue byteValue' :
  solarOf (answer i) = Return solarData ->
  panelFile fs = Some byteValue ->
  globalFile fs = Some byteValue' ->
  exists file,
    after fs i
    = mkFiles
        (Some (Text (writtenPanel <$> (grow (parseRealTime (seen i)) <$> (Unmarshal byteValue).1))))
        (Some file).
Proof.
  intros Hs Hp Hg. unfold after.
  pose proof (mainOnFiles_main (mkWorld (seen i) (solarOf (answer i)) (clock i) fs)) as Hlink.
  simpl in Hlink. rewrite Hlink.
  rewrite (main_completes _ solarData byteValue byteValue') by assumption.
  cbv zeta. simpl. eauto.
Qed.

Lemma after_unanswered fs i : answered i = false -> after fs i = fs.
Proof.
  unfold answered, after, mainOnFiles, pure.
  destruct (solarOf (answer i)); [reflexivity|discriminate].
Qed.

(** Over any sequence of invocations on files that open and hold
    well-formed strings (as everything the decoder returns does), the panel
    file keeps the identifiers of its panels and their order, and every
    panel keeps its former readings in place and gains exactly one per
    invocation whose UV step succeeded.  Both files still open afterwards,
    and an invocation whose UV step fails leaves both files as they were. *)
Theorem histories_grow_by_answered_runs (runs : list Invocation) (fs : Files)
    (byteValue : Bytes Panel) (byteValue' : Bytes GlobalData) :
  panelFile fs = Some byteValue ->
  globalFile fs = Some byteValue' ->
  Forall (fun p => writtenPanel p = p) (Unmarshal byteValue).1 ->
  (exists file,
     panelFile (afterAll runs fs) = Some file
     /\ is_Some (globalFile (afterAll runs fs))
     /\ Forall2 (grew (length (List.filter answered runs)))
                (Unmarshal byteValue).1 (Unmarshal file).1)
  /\ (forall i fs0, answered i = false -> after fs0 i = fs0).
Proof.
  intros Hp Hg Hvalid. split; [|intros i fs0; apply after_unanswered].
  revert fs byteValue byteValue' Hp Hg Hvalid.
  induction runs as [|i runs IH]; intros fs byteValue byteValue' Hp Hg Hvalid.
  - exists byteValue. unfold afterAll. simpl fold_left.
    split; [exact Hp|]. split; [rewrite Hg; eauto|].
    apply Forall_Forall2_diag, Forall_forall. intros p _. apply grew_refl.
  - unfold afterAll. simpl fold_left. fold (afterAll runs (after fs i)).
    simpl List.filter. destruct (answered i) eqn:Ha.
    + unfold answered in Ha. destruct (solarOf (answer i)) as [|solarData] eqn:Hs;
        [discriminate|].
      destruct (after_answered fs i _ _ _ Hs Hp Hg) as [file' Hafter].
      rewrite Hafter.
      destruct (IH (mkFiles
                      (Some (Text (writtenPanel <$>
                                     (grow (parseRealTime (seen i)) <$> (Unmarshal byteValue).1))))
                      (Some file'))
                  (Text (writtenPanel <$>
                           (grow (parseRealTime (seen i)) <$> (Unmarshal byteValue).1)))
                  file' eq_refl eq_refl) as (file & Hfile & Hglobal & Hgrew).
      { simpl. rewrite <- list_fmap_compose. apply Forall_fmap, Forall_forall.
        intros p _. apply writtenPanel_twice. }
      exists file. split; [exact Hfile|]. split; [exact Hglobal|].
      simpl in Hgrew. rewrite <- list_fmap_compose, Forall2_fmap_l in Hgrew.
      eapply Forall2_impl_Forall; [exact Hvalid|exact Hgrew|].
      intros p p' Hv. apply grew_after_written_grow, Hv.
    + rewrite (after_unanswered _ _ Ha). now apply (IH fs byteValue byteValue').
Qed.

Lemma histories_grow_witness :
  (exists file,
     panelFile (afterAll threeRuns (files twoPanels)) = Some file
     /\ is_Some (globalFile (afterAll threeRuns (files twoPanels)))
     /\ Forall2 (grew 2) [mkPanel "INV1" [yesterday]; mkPanel "INV2" []] (Unmarshal file).1)
  /\ (forall i fs0, answered i = false -> after fs0 i = fs0).
Proof.
  apply (histories_grow_by_answered_runs threeRuns (files twoPanels)
           (Text [mkPanel "INV1" [yesterday]; mkPanel "INV2" []]) (Text [stored]));
    [reflexivity|reflexivity|].
  repeat constructor.
Defined.

(** The three sample invocations evaluated. *)
Example three_runs_on_sample :
  solarOf fullAnswer = Return sunny
  /\ (exists d, solarOf quotaAnswer = Abort d)
  /\ panelFile (afterAll threeRuns (files twoPanels))
     = Some (Text
         [ mkPanel "INV1"
             [ yesterday; mkLiveData 100 230 35 "2024-01-01 10:00:00"; zeroLiveData ]
         ; mkPanel "INV2" [ mkLiveData 150 231 36 "2024-01-01 10:00:00"; zeroLiveData ] ]).
Proof. split; [reflexivity|]. split; [eexists; reflexivity|reflexivity]. Qed.
